(** * CMAB (CTR Material Animation Binary): decoder and sampler

    A shallow embedding of [src/oot3d/cmab.ts]: the track, entry and
    container parsers, the frame normalisation [getAnimFrame], the linear and
    Hermite samplers and the two animators, followed by the properties the
    specification states about them.

    Numbers.  A JavaScript number is modelled by [number]: an exact rational
    ([Qc], so that equality is Leibniz equality), or one of NaN, +Infinity,
    -Infinity.  Every unsigned 32-bit integer and every finite 32-bit float is
    such a rational.  Arithmetic is exact: the rounding of double arithmetic
    and the sign of zero are not modelled.  Keyframe times and the duration
    are always the result of [getUint32]; they are kept as integers ([Z]) and
    injected into [number] where the source mixes them with frames.

    The value the linear sampler returns between two keyframes depends on
    rounding; it is stated of [Binary64], the same sampler on IEEE 754
    binary64 numbers ([float]). *)

From Stdlib Require Import ZArith QArith Qcanon List Permutation Bool Lia Lqa.
From Stdlib Require Floats.
From Stdlib.Strings Require Import String Byte.
Import ListNotations.

Local Open Scope Z_scope.

(** ** Errors and results *)

(** The errors a call can end with.  [MalformedData], [UnsupportedTrackType]
    and [InvalidEntryType] are the specification's taxonomy; [TypeError] is the
    JavaScript runtime error raised by reading a property of [undefined]. *)
Inductive error : Type :=
| MalformedData
| UnsupportedTrackType
| InvalidEntryType
| TypeError.

Inductive result (A : Type) : Type :=
| Ok (a : A)
| Err (e : error).

Arguments Ok {A} a.
Arguments Err {A} e.

Definition bind {A B : Type} (r : result A) (k : A -> result B) : result B :=
  match r with
  | Ok a => k a
  | Err e => Err e
  end.

Notation "x <- r ;; k" := (bind r (fun x => k))
  (at level 61, r at next level, right associativity).

(** ** Numbers *)

Inductive number : Type :=
| Num (q : Qc)
| NaN
| PosInfinity
| NegInfinity.

(** The integer [z] as a rational. *)
Definition injZ (z : Z) : Qc := Q2Qc (inject_Z z).

Definition ofZ (z : Z) : number := Num (injZ z).

Definition Qcltb (x y : Qc) : bool :=
  match (x ?= y)%Qc with Lt => true | _ => false end.

Definition Qceqb (x y : Qc) : bool :=
  match (x ?= y)%Qc with Eq => true | _ => false end.

Definition infinity (negative : bool) : number :=
  if negative then NegInfinity else PosInfinity.

(** [a < b] of JavaScript: false as soon as one side is NaN. *)
Definition nlt (a b : number) : bool :=
  match a, b with
  | Num x, Num y => Qcltb x y
  | Num _, PosInfinity => true
  | NegInfinity, Num _ => true
  | NegInfinity, PosInfinity => true
  | _, _ => false
  end.

Definition ngt (a b : number) : bool := nlt b a.

(** [a === b] on numbers. *)
Definition neqb (a b : number) : bool :=
  match a, b with
  | Num x, Num y => Qceqb x y
  | PosInfinity, PosInfinity => true
  | NegInfinity, NegInfinity => true
  | _, _ => false
  end.

(** [a >= b] of JavaScript. *)
Definition nge (a b : number) : bool := ngt a b || neqb a b.

Definition nneg (a : number) : number :=
  match a with
  | Num x => Num (- x)%Qc
  | NaN => NaN
  | PosInfinity => NegInfinity
  | NegInfinity => PosInfinity
  end.

Definition nadd (a b : number) : number :=
  match a, b with
  | Num x, Num y => Num (x + y)%Qc
  | NaN, _ | _, NaN => NaN
  | PosInfinity, NegInfinity | NegInfinity, PosInfinity => NaN
  | PosInfinity, _ | _, PosInfinity => PosInfinity
  | NegInfinity, _ | _, NegInfinity => NegInfinity
  end.

Definition nsub (a b : number) : number := nadd a (nneg b).

(** An infinity multiplied or divided by a finite [y]. *)
Definition scaleInfinity (negative : bool) (y : Qc) : number :=
  match (y ?= 0)%Qc with
  | Gt => infinity negative
  | Lt => infinity (negb negative)
  | Eq => NaN
  end.

Definition nmul (a b : number) : number :=
  match a, b with
  | Num x, Num y => Num (x * y)%Qc
  | NaN, _ | _, NaN => NaN
  | PosInfinity, Num y | Num y, PosInfinity => scaleInfinity false y
  | NegInfinity, Num y | Num y, NegInfinity => scaleInfinity true y
  | PosInfinity, PosInfinity | NegInfinity, NegInfinity => PosInfinity
  | PosInfinity, NegInfinity | NegInfinity, PosInfinity => NegInfinity
  end.

Definition ndiv (a b : number) : number :=
  match a, b with
  | Num x, Num y =>
      if Qceqb y 0 then
        match (x ?= 0)%Qc with
        | Gt => PosInfinity
        | Lt => NegInfinity
        | Eq => NaN
        end
      else Num (x / y)%Qc
  | NaN, _ | _, NaN => NaN
  | Num _, _ => Num 0%Qc
  | PosInfinity, Num y =>
      match (y ?= 0)%Qc with Lt => NegInfinity | _ => PosInfinity end
  | NegInfinity, Num y =>
      match (y ?= 0)%Qc with Lt => PosInfinity | _ => NegInfinity end
  | _, _ => NaN
  end.

(** ** Binary reader *)

(** Modelled from the spec: [ArrayBufferSlice] ([src/ArrayBufferSlice.ts]) is
    not part of the sources at hand.  Section 4.1 describes it as an
    immutable, sliceable byte view with little-endian, bounds-checked reads;
    here it is the list of the bytes the view covers. *)
Definition ArrayBufferSlice : Type := list byte.

(** Modelled from the spec: one bounds-checked byte read; a read beyond the
    buffer's bounds fails with [MalformedData]. *)
Definition getUint8 (buffer : ArrayBufferSlice) (offs : Z) : result Z :=
  if offs <? 0 then Err MalformedData
  else match nth_error buffer (Z.to_nat offs) with
       | Some b => Ok (Z.of_N (Byte.to_N b))
       | None => Err MalformedData
       end.

(** Modelled from the spec: the little-endian 16-bit read of the reader's
    data view. *)
Definition getUint16 (buffer : ArrayBufferSlice) (offs : Z) : result Z :=
  b0 <- getUint8 buffer offs ;;
  b1 <- getUint8 buffer (offs + 1) ;;
  Ok (Z.lor b0 (Z.shiftl b1 8)).

(** Modelled from the spec: the little-endian 32-bit read of the reader's
    data view. *)
Definition getUint32 (buffer : ArrayBufferSlice) (offs : Z) : result Z :=
  b0 <- getUint8 buffer offs ;;
  b1 <- getUint8 buffer (offs + 1) ;;
  b2 <- getUint8 buffer (offs + 2) ;;
  b3 <- getUint8 buffer (offs + 3) ;;
  Ok (Z.lor (Z.lor b0 (Z.shiftl b1 8))
            (Z.lor (Z.shiftl b2 16) (Z.shiftl b3 24))).

(** [2 ^ e] as a rational, for any integer exponent. *)
Definition pow2 (e : Z) : Qc :=
  if 0 <=? e then injZ (2 ^ e)
  else Q2Qc (1 # Z.to_pos (2 ^ (- e))).

(** The value of the IEEE-754 binary32 pattern [bits]: sign bit 31, biased
    exponent in bits 23..30, fraction in bits 0..22. *)
Definition float32_of_bits (bits : Z) : number :=
  let negative := Z.testbit bits 31 in
  let e := Z.land (Z.shiftr bits 23) 255 in
  let m := Z.land bits (2 ^ 23 - 1) in
  if e =? 255 then
    if m =? 0 then infinity negative else NaN
  else
    let magnitude :=
      if e =? 0 then (injZ m * pow2 (-149))%Qc
      else (injZ (2 ^ 23 + m) * pow2 (e - 150))%Qc in
    Num (if negative then (- magnitude)%Qc else magnitude).

(** Modelled from the spec: the little-endian 32-bit float read of the
    reader's data view. *)
Definition getFloat32 (buffer : ArrayBufferSlice) (offs : Z) : result number :=
  bits <- getUint32 buffer offs ;;
  Ok (float32_of_bits bits).

(** Modelled from the spec: [buffer.slice(offs)], the sub-view that starts at
    [offs] and runs to the end of the buffer.  A view that starts beyond the
    end is empty, so every read in it fails. *)
Definition slice (buffer : ArrayBufferSlice) (offs : Z) : ArrayBufferSlice :=
  skipn (Z.to_nat offs) buffer.

(** Modelled from the spec: [readString(buffer, offs, length, false)]
    ([src/util.ts]), the fixed-length ASCII tag at [offs]. *)
Definition readString (buffer : ArrayBufferSlice) (offs : Z) (length : nat)
  : result string :=
  let bytes := firstn length (slice buffer offs) in
  if (offs <? 0) || negb (Nat.eqb (List.length bytes) length)
  then Err MalformedData
  else Ok (string_of_list_byte bytes).

(** Modelled from the spec: [assert] ([src/util.ts]); a failed validation is
    the error [MalformedData]. *)
Definition assert (b : bool) : result unit :=
  if b then Ok tt else Err MalformedData.

(** ** Data model *)

Record AnimationKeyframeLinear : Type := {
  lin_time : Z;
  lin_value : number
}.

Record AnimationKeyframeHermite : Type := {
  time : Z;
  value : number;
  tangentIn : number;
  tangentOut : number
}.

(** [AnimationTrack]: the [type] field of the source ([LINEAR] = 0x01,
    [HERMITE] = 0x02) is the constructor. *)
Inductive AnimationTrack : Type :=
| AnimationTrackLinear (frames : list AnimationKeyframeLinear)
| AnimationTrackHermite (frames : list AnimationKeyframeHermite).

Definition LINEAR : Z := 0x01.
Definition HERMITE : Z := 0x02.

(** A JavaScript array of tracks: a hole, a slot that holds [undefined] and an
    index past the end all read as [undefined], which is [None]. *)
Definition TrackArray : Type := list (option AnimationTrack).

Record AnimationEntry : Type := {
  animationType : Z;
  materialIndex : Z;
  channelIndex : Z;
  tracks : TrackArray
}.

Inductive LoopMode : Type := ONCE | REPEAT.

Record AnimationBase : Type := {
  duration : Z;
  loopMode : LoopMode
}.

Record CMAB : Type := {
  base :> AnimationBase;
  animEntries : list AnimationEntry
}.

Definition TRANSLATION : Z := 0x01.
Definition UNK_04 : Z := 0x04.
Definition ROTATION : Z := 0x05.

Inductive Version : Type := Ocarina | Majora.

(** ** Track parser *)

(** The loop of the [LINEAR] branch of [parseTrack]: [n] keyframes of 8 bytes
    from [keyframeTableIdx] on, pushed in file order. *)
Fixpoint readKeyframesLinear (buffer : ArrayBufferSlice) (n : nat)
    (keyframeTableIdx : Z) : result (list AnimationKeyframeLinear) :=
  match n with
  | O => Ok []
  | S n' =>
      time <- getUint32 buffer (keyframeTableIdx + 0x00) ;;
      value <- getFloat32 buffer (keyframeTableIdx + 0x04) ;;
      frames <- readKeyframesLinear buffer n' (keyframeTableIdx + 0x08) ;;
      Ok ({| lin_time := time; lin_value := value |} :: frames)
  end.

(** The loop of the [HERMITE] branch of [parseTrack]: [n] keyframes of 16
    bytes.  As in the source, the two tangents are read with [getUint32]. *)
Fixpoint readKeyframesHermite (buffer : ArrayBufferSlice) (n : nat)
    (keyframeTableIdx : Z) : result (list AnimationKeyframeHermite) :=
  match n with
  | O => Ok []
  | S n' =>
      time <- getUint32 buffer (keyframeTableIdx + 0x00) ;;
      value <- getFloat32 buffer (keyframeTableIdx + 0x04) ;;
      tangentIn <- getUint32 buffer (keyframeTableIdx + 0x08) ;;
      tangentOut <- getUint32 buffer (keyframeTableIdx + 0x0C) ;;
      frames <- readKeyframesHermite buffer n' (keyframeTableIdx + 0x10) ;;
      Ok ({| time := time; value := value;
             tangentIn := ofZ tangentIn; tangentOut := ofZ tangentOut |}
          :: frames)
  end.

(** The header fields [parseTrack] goes on to use: [(type, numKeyframes)].
    [timeEnd], [unk1] and [unk2] are read (so a truncated header fails) and
    dropped. *)
Definition readTrackHeader (version : Version) (buffer : ArrayBufferSlice)
  : result (Z * Z) :=
  match version with
  | Ocarina =>
      type <- getUint32 buffer 0x00 ;;
      numKeyframes <- getUint32 buffer 0x04 ;;
      timeEnd <- getUint32 buffer 0x08 ;;
      unk2 <- getUint32 buffer 0x0C ;;
      Ok (type, numKeyframes)
  | Majora =>
      type <- getUint16 buffer 0x00 ;;
      numKeyframes <- getUint16 buffer 0x02 ;;
      timeEnd <- getUint32 buffer 0x04 ;;
      unk1 <- getFloat32 buffer 0x08 ;;
      unk2 <- getUint32 buffer 0x0C ;;
      Ok (type, numKeyframes)
  end.

(** [parseTrack]: [Ok None] is the [undefined] returned for a track without
    keyframes, [Err UnsupportedTrackType] the final [throw]. *)
Definition parseTrack (version : Version) (buffer : ArrayBufferSlice)
  : result (option AnimationTrack) :=
  header <- readTrackHeader version buffer ;;
  let '(type, numKeyframes) := header in
  let keyframeTableIdx := 0x10 in
  if numKeyframes =? 0 then Ok None
  else if type =? LINEAR then
    frames <- readKeyframesLinear buffer (Z.to_nat numKeyframes)
                keyframeTableIdx ;;
    Ok (Some (AnimationTrackLinear frames))
  else if type =? HERMITE then
    frames <- readKeyframesHermite buffer (Z.to_nat numKeyframes)
                keyframeTableIdx ;;
    Ok (Some (AnimationTrackHermite frames))
  else Err UnsupportedTrackType.

(** ** Animation-entry parser *)

(** [tracks[i] = t] on a JavaScript array: an index past the end extends the
    array with holes. *)
Fixpoint arraySet (tracks : TrackArray) (i : nat) (t : option AnimationTrack)
  : TrackArray :=
  match i, tracks with
  | O, [] => [t]
  | O, _ :: rest => t :: rest
  | S i', [] => None :: arraySet [] i' t
  | S i', x :: rest => x :: arraySet rest i' t
  end.

(** One of the three slot loops of [parseMmad]: [n] slots are left, [i] is
    the loop counter. *)
Fixpoint parseTrackSlots (version : Version) (buffer : ArrayBufferSlice)
    (n : nat) (i : nat) (trackOffsTableIdx : Z) (tracks : TrackArray)
  : result TrackArray :=
  match n with
  | O => Ok tracks
  | S n' =>
      trackOffs <- getUint16 buffer trackOffsTableIdx ;;
      if trackOffs =? 0x00 then
        parseTrackSlots version buffer n' (S i) (trackOffsTableIdx + 0x02)
          tracks
      else
        track <- parseTrack version (slice buffer trackOffs) ;;
        parseTrackSlots version buffer n' (S i) (trackOffsTableIdx + 0x02)
          (arraySet tracks i track)
  end.

(** The number of slots read for an animation type. *)
Definition slotCount (animationType : Z) : nat :=
  if animationType =? TRANSLATION then 2%nat
  else if animationType =? UNK_04 then 4%nat
  else if animationType =? ROTATION then 1%nat
  else 0%nat.

Definition parseMmad (version : Version) (buffer : ArrayBufferSlice)
  : result AnimationEntry :=
  magic <- readString buffer 0x00 4 ;;
  _ <- assert (String.eqb magic "mmad") ;;
  animationType <- getUint32 buffer 0x04 ;;
  materialIndex <- getUint32 buffer 0x08 ;;
  channelIndex <- getUint32 buffer 0x0C ;;
  tracks <- parseTrackSlots version buffer (slotCount animationType) 0 0x10 [] ;;
  Ok {| animationType := animationType; materialIndex := materialIndex;
        channelIndex := channelIndex; tracks := tracks |}.

(** ** Container parser *)

(** The entry loop of [parse]: [n] entries are left. *)
Fixpoint parseEntries (version : Version) (buffer : ArrayBufferSlice)
    (madsChunkOffs : Z) (n : nat) (mmadAnimationTableIdx : Z)
  : result (list AnimationEntry) :=
  match n with
  | O => Ok []
  | S n' =>
      offs <- getUint32 buffer (mmadAnimationTableIdx + 0x00) ;;
      let mmadAnimChunkOffs := madsChunkOffs + offs in
      entry <- parseMmad version (slice buffer mmadAnimChunkOffs) ;;
      entries <- parseEntries version buffer madsChunkOffs n'
                   (mmadAnimationTableIdx + 0x04) ;;
      Ok (entry :: entries)
  end.

Definition madsChunkOffs : Z := 0x34.

Definition parse (version : Version) (buffer : ArrayBufferSlice)
  : result CMAB :=
  magic <- readString buffer 0x00 4 ;;
  _ <- assert (String.eqb magic "cmab") ;;
  subversion <- getUint32 buffer 0x04 ;;
  _ <- assert (subversion =? 0x01) ;;
  size <- getUint32 buffer 0x08 ;;
  x0C <- getUint32 buffer 0x0C ;;
  _ <- assert (x0C =? 0x00) ;;
  x10 <- getUint32 buffer 0x10 ;;
  _ <- assert (x10 =? 0x01) ;;
  x14 <- getUint32 buffer 0x14 ;;
  _ <- assert (x14 =? 0x20) ;;
  strTableChunkOffs <- getUint32 buffer 0x18 ;;
  strt <- readString buffer strTableChunkOffs 4 ;;
  _ <- assert (String.eqb strt "strt") ;;
  x20 <- getUint32 buffer 0x20 ;;
  _ <- assert (x20 =? 0xFFFFFFFF) ;;
  duration <- getUint32 buffer 0x24 ;;
  x2C <- getUint32 buffer 0x2C ;;
  _ <- assert (x2C =? 0x14) ;;
  let loopMode := REPEAT in
  mads <- readString buffer (madsChunkOffs + 0x00) 4 ;;
  _ <- assert (String.eqb mads "mads") ;;
  numAnimations <- getUint32 buffer (madsChunkOffs + 0x04) ;;
  animEntries <- parseEntries version buffer madsChunkOffs
                   (Z.to_nat numAnimations) (madsChunkOffs + 0x08) ;;
  Ok {| base := {| duration := duration; loopMode := loopMode |};
        animEntries := animEntries |}.

(** ** Sampler *)

Declare Scope num_scope.
Delimit Scope num_scope with num.
Bind Scope num_scope with number.
Infix "+" := nadd : num_scope.
Infix "-" := nsub : num_scope.
Infix "*" := nmul : num_scope.
Infix "/" := ndiv : num_scope.
Notation "- x" := (nneg x) : num_scope.

(** [Array.prototype.findIndex]: the first index whose element satisfies [p],
    or [-1]. *)
Fixpoint findIndex {A : Type} (p : A -> bool) (l : list A) : Z :=
  match l with
  | [] => -1
  | x :: rest =>
      if p x then 0
      else let i := findIndex p rest in
           if i <? 0 then -1 else i + 1
  end.

(** [l[i]]: [undefined] (here [None]) for a negative index or one past the
    end. *)
Definition arrayGet {A : Type} (l : list A) (i : Z) : option A :=
  if i <? 0 then None else nth_error l (Z.to_nat i).

(** Reading a property of [o]: a [TypeError] when [o] is [undefined]. *)
Definition deref {A : Type} (o : option A) : result A :=
  match o with
  | Some a => Ok a
  | None => Err TypeError
  end.

Definition lerp (k0 k1 : AnimationKeyframeLinear) (t : number) : number :=
  (lin_value k0 + (lin_value k1 - lin_value k0) * t)%num.

Definition sampleAnimationTrackLinear (frames : list AnimationKeyframeLinear)
    (frame : number) : result number :=
  if Nat.eqb (List.length frames) 1 then
    k <- deref (arrayGet frames 0) ;; Ok (lin_value k)
  else
    let idx1 := findIndex (fun key => nlt frame (ofZ (lin_time key))) frames in
    if idx1 <? 0 then
      k <- deref (arrayGet frames (Z.of_nat (List.length frames) - 1)) ;;
      Ok (lin_value k)
    else
      let idx0 := idx1 - 1 in
      k0 <- deref (arrayGet frames idx0) ;;
      k1 <- deref (arrayGet frames idx1) ;;
      let t := ((frame - ofZ (lin_time k0))
                / (ofZ (lin_time k1) - ofZ (lin_time k0)))%num in
      Ok (lerp k0 k1 t).

Definition cubicEval (cf0 cf1 cf2 cf3 t : number) : number :=
  (((cf0 * t + cf1) * t + cf2) * t + cf3)%num.

Definition hermiteInterpolate (k0 k1 : AnimationKeyframeHermite) (t : number)
  : number :=
  let length := (ofZ (time k1) - ofZ (time k0))%num in
  let p0 := value k0 in
  let p1 := value k1 in
  let s0 := (tangentOut k0 * length)%num in
  let s1 := (tangentIn k1 * length)%num in
  let cf0 := ((p0 * ofZ 2) + (p1 * ofZ (-2)) + (s0 * ofZ 1) + (s1 * ofZ 1))%num in
  let cf1 := ((p0 * ofZ (-3)) + (p1 * ofZ 3) + (s0 * ofZ (-2)) + (s1 * ofZ (-1)))%num in
  let cf2 := ((p0 * ofZ 0) + (p1 * ofZ 0) + (s0 * ofZ 1) + (s1 * ofZ 0))%num in
  let cf3 := ((p0 * ofZ 1) + (p1 * ofZ 0) + (s0 * ofZ 0) + (s1 * ofZ 0))%num in
  cubicEval cf0 cf1 cf2 cf3 t.

Definition sampleAnimationTrackHermite (frames : list AnimationKeyframeHermite)
    (frame : number) : result number :=
  if Nat.eqb (List.length frames) 1 then
    k <- deref (arrayGet frames 0) ;; Ok (value k)
  else
    let idx1 := findIndex (fun key => nlt frame (ofZ (time key))) frames in
    if idx1 <? 0 then
      k <- deref (arrayGet frames (Z.of_nat (List.length frames) - 1)) ;;
      Ok (value k)
    else
      let idx0 := idx1 - 1 in
      k0 <- deref (arrayGet frames idx0) ;;
      k1 <- deref (arrayGet frames idx1) ;;
      if neqb (ofZ (time k1) - ofZ (time k0))%num (ofZ 1) then Ok (value k0)
      else
        let t := ((frame - ofZ (time k0))
                  / (ofZ (time k1) - ofZ (time k0)))%num in
        Ok (hermiteInterpolate k0 k1 t).

(** [sampleAnimationTrack]: the final [throw] of the source needs a track
    whose [type] is neither tag, which the tagged union excludes. *)
Definition sampleAnimationTrack (track : AnimationTrack) (frame : number)
  : result number :=
  match track with
  | AnimationTrackLinear frames => sampleAnimationTrackLinear frames frame
  | AnimationTrackHermite frames => sampleAnimationTrackHermite frames frame
  end.

(** ** Frame normalisation *)

(** The loop [while (frame > lastFrame) frame -= lastFrame] of [getAnimFrame],
    run for at most [fuel] tests of its condition: [None] when the loop is
    still running after that many. *)
Fixpoint repeatLoop (fuel : nat) (lastFrame frame : number) : option number :=
  match fuel with
  | O => None
  | S fuel' =>
      if ngt frame lastFrame
      then repeatLoop fuel' lastFrame (frame - lastFrame)%num
      else Some frame
  end.

(** [getAnimFrame]: [None] when the [REPEAT] loop does not finish within
    [fuel] tests.  The final [throw] of the source needs a loop mode that is
    neither [ONCE] nor [REPEAT], which the enumeration excludes. *)
Definition getAnimFrame (fuel : nat) (anim : AnimationBase) (frame : number)
  : option number :=
  let lastFrame := ofZ (duration anim) in
  match loopMode anim with
  | ONCE => Some (if ngt frame lastFrame then lastFrame else frame)
  | REPEAT => repeatLoop fuel lastFrame frame
  end.

(** ** Animators *)

(** What [calcTexMtx] leaves in [dst].  [MtxTranslation m12 m13] is the
    identity matrix with elements 12 and 13 overwritten; [MtxRotateZ rad] is
    the result of gl-matrix's [mat4.rotateZ] on the identity with angle [rad],
    which is not expanded here. *)
Inductive TexMtx : Type :=
| MtxTranslation (m12 m13 : number)
| MtxRotateZ (rad : number).

Record Color : Type := {
  red : number;
  green : number;
  blue : number;
  alpha : number
}.

(** [tracks[i] !== undefined ? sampleAnimationTrack(tracks[i], animFrame) : dflt] *)
Definition sampleSlot (entry : AnimationEntry) (i : Z) (animFrame : number)
    (dflt : number) : result number :=
  match arrayGet (tracks entry) i with
  | Some (Some track) => sampleAnimationTrack track animFrame
  | _ => Ok dflt
  end.

(** The assertion of the constructor of [TextureAnimator]. *)
Definition newTextureAnimator (cmab : CMAB) (animEntry : AnimationEntry)
  : result (CMAB * AnimationEntry) :=
  if (animationType animEntry =? TRANSLATION)
     || (animationType animEntry =? ROTATION)
  then Ok (cmab, animEntry) else Err InvalidEntryType.

(** The assertion of the constructor of [ColorAnimator]. *)
Definition newColorAnimator (cmab : CMAB) (animEntry : AnimationEntry)
  : result (CMAB * AnimationEntry) :=
  if animationType animEntry =? UNK_04
  then Ok (cmab, animEntry) else Err InvalidEntryType.

(** [calcTexMtx], with [timeInFrames] the value of
    [animationController.getTimeInFrames()].  [None]: the loop of
    [getAnimFrame] did not finish within [fuel] tests. *)
Definition calcTexMtx (fuel : nat) (cmab : CMAB) (animEntry : AnimationEntry)
    (timeInFrames : number) : option (result TexMtx) :=
  match getAnimFrame fuel cmab timeInFrames with
  | None => None
  | Some animFrame =>
      Some (
        if animationType animEntry =? TRANSLATION then
          tx <- sampleSlot animEntry 0 animFrame (ofZ 0) ;;
          ty <- sampleSlot animEntry 1 animFrame (ofZ 0) ;;
          Ok (MtxTranslation (- tx)%num (- ty)%num)
        else if animationType animEntry =? ROTATION then
          rad <- sampleSlot animEntry 0 animFrame (ofZ 0) ;;
          Ok (MtxRotateZ rad)
        else Err InvalidEntryType)
  end.

(** [calcMaterialColor]. *)
Definition calcMaterialColor (fuel : nat) (cmab : CMAB)
    (animEntry : AnimationEntry) (timeInFrames : number)
  : option (result Color) :=
  match getAnimFrame fuel cmab timeInFrames with
  | None => None
  | Some animFrame =>
      Some (
        cr <- sampleSlot animEntry 0 animFrame (ofZ 1) ;;
        cg <- sampleSlot animEntry 1 animFrame (ofZ 1) ;;
        cb <- sampleSlot animEntry 2 animFrame (ofZ 1) ;;
        ca <- sampleSlot animEntry 3 animFrame (ofZ 1) ;;
        Ok {| red := cr; green := cg; blue := cb; alpha := ca |})
  end.

(** Sampling one track of a container at an input frame: the frame is
    normalised by [getAnimFrame], then the track is sampled, as each slot of
    [calcTexMtx] and [calcMaterialColor] is. *)
Definition sampleAt (fuel : nat) (anim : AnimationBase) (track : AnimationTrack)
    (frame : number) : option (result number) :=
  match getAnimFrame fuel anim frame with
  | None => None
  | Some animFrame => Some (sampleAnimationTrack track animFrame)
  end.

(** ** Well-formed tracks *)

(** The invariant the data model assumes of a track: keyframe times strictly
    increase. *)
Fixpoint strictlyIncreasing (times : list Z) : bool :=
  match times with
  | t0 :: ((t1 :: _) as rest) => (t0 <? t1) && strictlyIncreasing rest
  | _ => true
  end.

Definition trackTimes (track : AnimationTrack) : list Z :=
  match track with
  | AnimationTrackLinear frames => map lin_time frames
  | AnimationTrackHermite frames => map time frames
  end.

(** The fields of a track header that declare its type and its keyframe
    count, as [parseTrack] reads them. *)
Definition declaredType (version : Version) (buffer : ArrayBufferSlice)
  : result Z :=
  match version with
  | Ocarina => getUint32 buffer 0x00
  | Majora => getUint16 buffer 0x00
  end.

Definition declaredCount (version : Version) (buffer : ArrayBufferSlice)
  : result Z :=
  match version with
  | Ocarina => getUint32 buffer 0x04
  | Majora => getUint16 buffer 0x02
  end.

(** ** Failures of a parse *)

(** [r] fails, if it does, with an error that satisfies [P]. *)
Definition onlyFails {A : Type} (P : error -> Prop) (r : result A) : Prop :=
  forall e : error, r = Err e -> P e.

Definition isMalformedData (e : error) : Prop := e = MalformedData.

(** The two errors a parse can end with. *)
Definition isParseError (e : error) : Prop :=
  e = MalformedData \/ e = UnsupportedTrackType.

(** ** Examples *)

(** Little-endian encoders, used to write the example buffers. *)
Definition byteOfZ (z : Z) : byte :=
  match Byte.of_N (Z.to_N (z mod 256)) with
  | Some b => b
  | None => x00
  end.

Definition u16le (z : Z) : list byte :=
  [byteOfZ z; byteOfZ (Z.shiftr z 8)].

Definition u32le (z : Z) : list byte :=
  [byteOfZ z; byteOfZ (Z.shiftr z 8); byteOfZ (Z.shiftr z 16);
   byteOfZ (Z.shiftr z 24)].

Definition tag (s : string) : list byte := list_byte_of_string s.

(** The fixed part of a container with one entry, 0x40 bytes:
    0x00 "cmab", 0x04 subversion 1, 0x08 size, 0x0C 0, 0x10 1, 0x14 0x20,
    0x18 offset of the string table, 0x1C 0, 0x20 0xFFFFFFFF, 0x24 duration,
    0x28 1, 0x2C 0x14, 0x30 0, 0x34 "mads", 0x38 one animation,
    0x3C its offset 0x0C, so that the entry lies at 0x34 + 0x0C = 0x40. *)
Definition exampleHeader (duration strt : Z) : list byte :=
  tag "cmab" ++ u32le 0x01 ++ u32le (strt + 4) ++ u32le 0x00
  ++ u32le 0x01 ++ u32le 0x20 ++ u32le strt ++ u32le 0x00
  ++ u32le 0xFFFFFFFF ++ u32le duration ++ u32le 0x01 ++ u32le 0x14
  ++ u32le 0x00
  ++ tag "mads" ++ u32le 0x01 ++ u32le 0x0C.

(** A translation entry, 0x14 bytes: "mmad", type 1, material 0, channel 0,
    then the two slot offsets: slot 0 points at the track right behind the
    entry (offset 0x14), slot 1 is empty. *)
Definition exampleEntry : list byte :=
  tag "mmad" ++ u32le TRANSLATION ++ u32le 0x00 ++ u32le 0x00
  ++ u16le 0x14 ++ u16le 0x00.

(** An Ocarina track header, 0x10 bytes: type, keyframe count, end time and
    one more field. *)
Definition exampleTrackHeader (type numKeyframes timeEnd : Z) : list byte :=
  u32le type ++ u32le numKeyframes ++ u32le timeEnd ++ u32le 0x00.

(** Two linear keyframes (5, 1.0) and (10, 2.0), as they lie in a file:
    0x3F800000 is the float 1.0 and 0x40000000 the float 2.0. *)
Definition lateStartKeyframes : list byte :=
  u32le 5 ++ u32le 0x3F800000 ++ u32le 10 ++ u32le 0x40000000.

(** A container of duration 10 whose only track starts at frame 5; the track
    lies at 0x54, its keyframes at 0x64, the string table at 0x74. *)
Definition lateStartBuffer : ArrayBufferSlice :=
  exampleHeader 10 0x74 ++ exampleEntry ++ exampleTrackHeader LINEAR 2 10
  ++ lateStartKeyframes ++ tag "strt".

(** The same container with a duration of zero frames. *)
Definition zeroDurationBuffer : ArrayBufferSlice :=
  exampleHeader 0 0x74 ++ exampleEntry ++ exampleTrackHeader LINEAR 2 10
  ++ lateStartKeyframes ++ tag "strt".

(** A container whose only track declares type 0x03 and one keyframe. *)
Definition unsupportedTypeBuffer : ArrayBufferSlice :=
  exampleHeader 10 0x64 ++ exampleEntry ++ exampleTrackHeader 0x03 1 10
  ++ tag "strt".

(** A Hermite track of one keyframe at 0x10: time 0, value 1.0 at 0x14, and
    the bytes of the floats 1.0 and 2.0 in the tangent slots 0x18 and 0x1C. *)
Definition hermiteTrackBuffer : ArrayBufferSlice :=
  exampleTrackHeader HERMITE 1 0
  ++ u32le 0 ++ u32le 0x3F800000 ++ u32le 0x3F800000 ++ u32le 0x40000000.

(** Track headers that declare type 0x03: without keyframes (in the Ocarina
    and in the Majora layout) and with one keyframe. *)
Definition emptyTypeThreeOcarina : ArrayBufferSlice :=
  exampleTrackHeader 0x03 0 0.

Definition emptyTypeThreeMajora : ArrayBufferSlice :=
  u16le 0x03 ++ u16le 0 ++ u32le 0 ++ u32le 0 ++ u32le 0.

Definition typeThreeOneKeyframe : ArrayBufferSlice :=
  exampleTrackHeader 0x03 1 0.

(** A buffer that starts with a different signature. *)
Definition wrongSignatureBuffer : ArrayBufferSlice :=
  tag "cmdl" ++ u32le 0x01.

(** A container of ten frames that repeats, one that plays once, and the
    linear track with keyframes (0, 0) and (10, 10). *)
Definition repeatTen : CMAB :=
  {| base := {| duration := 10; loopMode := REPEAT |}; animEntries := [] |}.

Definition onceTen : CMAB :=
  {| base := {| duration := 10; loopMode := ONCE |}; animEntries := [] |}.

Definition rampFrames : list AnimationKeyframeLinear :=
  [ {| lin_time := 0; lin_value := ofZ 0 |};
    {| lin_time := 10; lin_value := ofZ 10 |} ].

Definition rampTrack : AnimationTrack := AnimationTrackLinear rampFrames.

Definition rampEntry : AnimationEntry :=
  {| animationType := TRANSLATION; materialIndex := 0; channelIndex := 0;
     tracks := [Some rampTrack] |}.

(** Two Hermite keyframes one frame apart, with values 3 and 7. *)
Definition stepFrames : list AnimationKeyframeHermite :=
  [ {| time := 4; value := ofZ 3; tangentIn := ofZ 0; tangentOut := ofZ 2 |};
    {| time := 5; value := ofZ 7; tangentIn := ofZ 2; tangentOut := ofZ 0 |} ].

(** Frame 4.5. *)
Definition fourAndAHalf : number := Num (Q2Qc (9 # 2)).

(** ** Vocabulary for the parsers' properties *)

(** The bytes one keyframe of a track of type [type] takes. *)
Definition keyframeSize (type : Z) : nat :=
  if type =? LINEAR then 8%nat else 16%nat.

(** A linear track of two keyframes and a Hermite track of two keyframes, as
    they lie in a file. *)
Definition linearTrackBuffer : ArrayBufferSlice :=
  exampleTrackHeader LINEAR 2 10 ++ lateStartKeyframes.

Definition twoHermiteKeyframes : ArrayBufferSlice :=
  exampleTrackHeader HERMITE 2 8
  ++ u32le 0 ++ u32le 0x3F800000 ++ u32le 0 ++ u32le 3
  ++ u32le 8 ++ u32le 0x40000000 ++ u32le 3 ++ u32le 0.

(** [tracks[i]] with a hole, a slot holding [undefined] and an index past the
    end all read as [None]. *)
Definition trackAt (tracks : TrackArray) (i : nat) : option AnimationTrack :=
  match nth_error tracks i with
  | Some t => t
  | None => None
  end.

(** A translation entry followed by its one linear track. *)
Definition mmadBuffer : ArrayBufferSlice := exampleEntry ++ linearTrackBuffer.

(** ** Vocabulary for the sampler's properties *)

(** [Number.isFinite]. *)
Definition isFinite (x : number) : bool :=
  match x with
  | Num _ => true
  | _ => false
  end.

Definition trackValues (track : AnimationTrack) : list number :=
  match track with
  | AnimationTrackLinear frames => map lin_value frames
  | AnimationTrackHermite frames => map value frames
  end.

(** The track has a first keyframe, and the frame is not before it. *)
Definition startsBy (track : AnimationTrack) (frame : number) : bool :=
  match trackTimes track with
  | t0 :: _ => negb (nlt frame (ofZ t0))
  | [] => false
  end.

Definition isTypeError (e : error) : Prop := e = TypeError.

(** Hermite keyframes eight frames apart, with finite values and tangents. *)
Definition hermiteFrames : list AnimationKeyframeHermite :=
  [ {| time := 0; value := ofZ 1; tangentIn := ofZ 0; tangentOut := ofZ 3 |};
    {| time := 8; value := ofZ 2; tangentIn := ofZ 3; tangentOut := ofZ 0 |} ].

(** A colour entry whose red and alpha slots hold the ramp. *)
Definition colorEntry : AnimationEntry :=
  {| animationType := UNK_04; materialIndex := 0; channelIndex := 0;
     tracks := [Some rampTrack; None; None; Some rampTrack] |}.

(** Every value a sampler computes with is a finite number: the values of
    the keyframes and, in a Hermite track, their tangents. *)
Definition finiteTrack (track : AnimationTrack) : bool :=
  match track with
  | AnimationTrackLinear frames =>
      forallb (fun k => isFinite (lin_value k)) frames
  | AnimationTrackHermite frames =>
      forallb (fun k => isFinite (value k) && isFinite (tangentIn k)
                        && isFinite (tangentOut k)) frames
  end.

(** ** The linear sampler in binary64 *)

(** [lerp] and [sampleAnimationTrackLinear] once more, on the numbers the
    source computes with: IEEE 754 binary64 ([float]).  Every [+], [-], [*]
    and [/] below is the binary64 operation, rounding to nearest with ties to
    even, and [<?] is the IEEE comparison, false when an operand is NaN.  A
    keyframe is the source's record of two numbers.  Statements whose truth
    depends on rounding are made of this sampler; the rest of the development
    computes in exact arithmetic. *)
Module Binary64.
Import Floats.

Record AnimationKeyframeLinear : Type :=
  { time : float;
    value : float }.

Definition lerp (k0 k1 : AnimationKeyframeLinear) (t : float) : float :=
  (value k0 + (value k1 - value k0) * t)%float.

Definition sampleAnimationTrackLinear (frames : list AnimationKeyframeLinear)
    (frame : float) : result float :=
  if Nat.eqb (List.length frames) 1 then
    k <- deref (arrayGet frames 0) ;; Ok (value k)
  else
    let idx1 := findIndex (fun key => (frame <? time key)%float) frames in
    if idx1 <? 0 then
      k <- deref (arrayGet frames (Z.of_nat (List.length frames) - 1)) ;;
      Ok (value k)
    else
      let idx0 := idx1 - 1 in
      k0 <- deref (arrayGet frames idx0) ;;
      k1 <- deref (arrayGet frames idx1) ;;
      let t := ((frame - time k0) / (time k1 - time k0))%float in
      Ok (lerp k0 k1 t).

(** Keyframe times strictly increase, in the order of [<?]. *)
Fixpoint strictlyIncreasing (times : list float) : bool :=
  match times with
  | t0 :: ((t1 :: _) as rest) => (t0 <? t1)%float && strictlyIncreasing rest
  | _ => true
  end.

(** The weighted average as the specification writes it,
    [v0 + (v1 - v0) * (f - t0) / (t1 - t0)], read as a JavaScript expression:
    the product is formed first and then divided. *)
Definition weightedAverage (k0 k1 : AnimationKeyframeLinear) (f : float)
  : float :=
  (value k0 + (value k1 - value k0) * (f - time k0) / (time k1 - time k0))%float.

(** The linear track with keyframes (0, 0) and (10, 10). *)
Definition rampFrames : list AnimationKeyframeLinear :=
  [ {| time := 0; value := 0 |}; {| time := 10; value := 10 |} ].

(** The linear track with keyframes (0, 0) and (49, 49). *)
Definition longRampFrames : list AnimationKeyframeLinear :=
  [ {| time := 0; value := 0 |}; {| time := 49; value := 49 |} ].

(** The place of a number in the order of [<?]: none for NaN, otherwise the
    sign class, then exponent and mantissa, negated for a negative number.
    The two zeros share a place. *)
Definition SFkey (f : spec_float) : option (Z * Z * Z) :=
  match f with
  | S754_nan => None
  | S754_infinity true => Some (-2, 0, 0)
  | S754_infinity false => Some (2, 0, 0)
  | S754_zero _ => Some (0, 0, 0)
  | S754_finite false m e => Some (1, e, Zpos m)
  | S754_finite true m e => Some (-1, - e, - Zpos m)
  end.

Definition lexlt (a b : Z * Z * Z) : Prop :=
  let '(c1, x1, y1) := a in
  let '(c2, x2, y2) := b in
  c1 < c2 \/ (c1 = c2 /\ (x1 < x2 \/ (x1 = x2 /\ y1 < y2))).

Definition lexle (a b : Z * Z * Z) : Prop := lexlt a b \/ a = b.

End Binary64.

(** ** The model cache of the Fez scenes ([src/Fez/Scenes_Fez.ts]) *)

Definition pathBase : string := "Fez".

(** A promise is an object: it is identified by its rank among the promises
    the cache has created.  What it resolves to is not modelled. *)
Definition Promise : Type := nat.

(** [Map<string, Promise>], in insertion order. *)
Definition PromiseMap : Type := list (string * Promise).

(** [Map.prototype.get]: [None] is [undefined]. *)
Fixpoint mapGet (m : PromiseMap) (key : string) : option Promise :=
  match m with
  | [] => None
  | (k, v) :: rest => if String.eqb k key then Some v else mapGet rest key
  end.

(** [Map.prototype.has]. *)
Definition mapHas (m : PromiseMap) (key : string) : bool :=
  match mapGet m key with
  | Some _ => true
  | None => false
  end.

(** [Map.prototype.set]: the value of a key that is present is replaced
    where it stands, a new key is added at the end. *)
Fixpoint mapSet (m : PromiseMap) (key : string) (v : Promise) : PromiseMap :=
  match m with
  | [] => [(key, v)]
  | (k, v0) :: rest =>
      if String.eqb k key then (k, v) :: rest
      else (k, v0) :: mapSet rest key v
  end.

(** [ModelCache]: its three maps, the data paths handed to [fetchXML] and
    [fetchPNG] so far (oldest first), and the number of promises created by
    the three internal fetches. *)
Record ModelCache : Type := {
  trilesetPromiseCache : PromiseMap;
  artObjectPromiseCache : PromiseMap;
  backgroundPlanePromiseCache : PromiseMap;
  requestedPaths : list string;
  created : nat
}.

Definition newModelCache : ModelCache :=
  {| trilesetPromiseCache := []; artObjectPromiseCache := [];
     backgroundPlanePromiseCache := []; requestedPaths := []; created := 0 |}.

(** The part of an internal fetch that runs before its first [await]: the
    data paths are requested in the order of the source, and a new promise
    is returned. *)
Definition startFetch (c : ModelCache) (paths : list string)
  : Promise * ModelCache :=
  (created c,
   {| trilesetPromiseCache := trilesetPromiseCache c;
      artObjectPromiseCache := artObjectPromiseCache c;
      backgroundPlanePromiseCache := backgroundPlanePromiseCache c;
      requestedPaths := requestedPaths c ++ paths;
      created := S (created c) |}).

Definition fetchTrilesetInternal (c : ModelCache) (path : string)
  : Promise * ModelCache :=
  startFetch c [ (pathBase ++ "/trile sets/" ++ path ++ ".xml")%string;
                 (pathBase ++ "/trile sets/" ++ path ++ ".png")%string ].

Definition fetchArtObjectInternal (c : ModelCache) (path : string)
  : Promise * ModelCache :=
  startFetch c [ (pathBase ++ "/art objects/" ++ path ++ ".xml")%string;
                 (pathBase ++ "/art objects/" ++ path ++ ".png")%string ].

Definition fetchBackgroundPlaneInternal (c : ModelCache) (path : string)
    (isAnimated : bool) : Promise * ModelCache :=
  if isAnimated then
    startFetch c
      [ (pathBase ++ "/background planes/" ++ path ++ ".ani.png")%string;
        (pathBase ++ "/background planes/" ++ path ++ ".xml")%string ]
  else
    startFetch c
      [ (pathBase ++ "/background planes/" ++ path ++ ".png")%string ].

(** [fetchTrileset]: the promise returned is [None] when [get] answers
    [undefined]. *)
Definition fetchTrileset (c : ModelCache) (path : string)
  : option Promise * ModelCache :=
  let c' :=
    if negb (mapHas (trilesetPromiseCache c) path) then
      let '(p, c1) := fetchTrilesetInternal c path in
      {| trilesetPromiseCache := mapSet (trilesetPromiseCache c1) path p;
         artObjectPromiseCache := artObjectPromiseCache c1;
         backgroundPlanePromiseCache := backgroundPlanePromiseCache c1;
         requestedPaths := requestedPaths c1;
         created := created c1 |}
    else c in
  (mapGet (trilesetPromiseCache c') path, c').

Definition fetchArtObject (c : ModelCache) (path : string)
  : option Promise * ModelCache :=
  let c' :=
    if negb (mapHas (artObjectPromiseCache c) path) then
      let '(p, c1) := fetchArtObjectInternal c path in
      {| trilesetPromiseCache := trilesetPromiseCache c1;
         artObjectPromiseCache := mapSet (artObjectPromiseCache c1) path p;
         backgroundPlanePromiseCache := backgroundPlanePromiseCache c1;
         requestedPaths := requestedPaths c1;
         created := created c1 |}
    else c in
  (mapGet (artObjectPromiseCache c') path, c').

Definition fetchBackgroundPlane (c : ModelCache) (path : string)
    (isAnimated : bool) : option Promise * ModelCache :=
  let c' :=
    if negb (mapHas (backgroundPlanePromiseCache c) path) then
      let '(p, c1) := fetchBackgroundPlaneInternal c path isAnimated in
      {| trilesetPromiseCache := trilesetPromiseCache c1;
         artObjectPromiseCache := artObjectPromiseCache c1;
         backgroundPlanePromiseCache :=
           mapSet (backgroundPlanePromiseCache c1) path p;
         requestedPaths := requestedPaths c1;
         created := created c1 |}
    else c in
  (mapGet (backgroundPlanePromiseCache c') path, c').

(** A call of one of the three public methods of the cache. *)
Inductive CacheCall : Type :=
| CallTrileset (path : string)
| CallArtObject (path : string)
| CallBackgroundPlane (path : string) (isAnimated : bool).

Definition call (c : ModelCache) (k : CacheCall) : option Promise * ModelCache :=
  match k with
  | CallTrileset path => fetchTrileset c path
  | CallArtObject path => fetchArtObject c path
  | CallBackgroundPlane path isAnimated =>
      fetchBackgroundPlane c path isAnimated
  end.

(** The cache after a sequence of calls. *)
Fixpoint calls (c : ModelCache) (ks : list CacheCall) : ModelCache :=
  match ks with
  | [] => c
  | k :: rest => calls (snd (call c k)) rest
  end.

(** The same asset: the same method and the same path.  The flag of a
    background plane is not part of it. *)
Definition sameAsset (k1 k2 : CacheCall) : bool :=
  match k1, k2 with
  | CallTrileset p1, CallTrileset p2 => String.eqb p1 p2
  | CallArtObject p1, CallArtObject p2 => String.eqb p1 p2
  | CallBackgroundPlane p1 _, CallBackgroundPlane p2 _ => String.eqb p1 p2
  | _, _ => false
  end.

(** The map a call looks into, and the key it looks up. *)
Definition cacheFor (k : CacheCall) (c : ModelCache) : PromiseMap :=
  match k with
  | CallTrileset _ => trilesetPromiseCache c
  | CallArtObject _ => artObjectPromiseCache c
  | CallBackgroundPlane _ _ => backgroundPlanePromiseCache c
  end.

Definition assetPath (k : CacheCall) : string :=
  match k with
  | CallTrileset path => path
  | CallArtObject path => path
  | CallBackgroundPlane path _ => path
  end.

(** What holds of a cache built by calls from a new one: every promise it
    holds was created by it, no promise is held twice, and it holds as many
    promises as it created. *)
Definition storedPromises (c : ModelCache) : list Promise :=
  map snd (trilesetPromiseCache c) ++ map snd (artObjectPromiseCache c)
  ++ map snd (backgroundPlanePromiseCache c).

Definition cacheInvariant (c : ModelCache) : Prop :=
  NoDup (storedPromises c)
  /\ (forall p, In p (storedPromises c) -> (p < created c)%nat)
  /\ List.length (storedPromises c) = created c
  /\ (List.length (requestedPaths c) <= 2 * created c)%nat.

(** * Properties *)

(** ** Facts about numbers *)

Lemma Qcltb_true (x y : Qc) : Qcltb x y = true <-> (x < y)%Qc.
Proof.
  unfold Qcltb. rewrite Qclt_alt.
  destruct (x ?= y)%Qc; split; congruence.
Qed.

Lemma Qcltb_false (x y : Qc) : Qcltb x y = false <-> (y <= x)%Qc.
Proof.
  rewrite <- Bool.not_true_iff_false, Qcltb_true. split.
  - apply Qcnot_lt_le.
  - apply Qcle_not_lt.
Qed.

Lemma Qceqb_true (x y : Qc) : Qceqb x y = true <-> x = y.
Proof.
  unfold Qceqb. rewrite Qceq_alt.
  destruct (x ?= y)%Qc; split; congruence.
Qed.

Lemma Qceqb_false (x y : Qc) : Qceqb x y = false <-> x <> y.
Proof.
  rewrite <- Bool.not_true_iff_false, Qceqb_true. tauto.
Qed.

Lemma Qcltb_irrefl (x : Qc) : Qcltb x x = false.
Proof. apply Qcltb_false, Qcle_refl. Qed.

(** Moves an order statement from [Qc] to [Q], where [lra] decides it. *)
Ltac qc2q :=
  unfold Qclt, Qcle, Qcplus, Qcminus, Qcopp, Qcmult, injZ, Q2Qc in *;
  cbn [this] in *;
  rewrite ?Qred_correct in *.

Lemma injZ_lt (x y : Z) : (injZ x < injZ y)%Qc <-> x < y.
Proof. qc2q. rewrite <- Zlt_Qlt. tauto. Qed.

Lemma injZ_le (x y : Z) : (injZ x <= injZ y)%Qc <-> x <= y.
Proof. qc2q. rewrite <- Zle_Qle. tauto. Qed.

Lemma injZ_inj (x y : Z) : injZ x = injZ y -> x = y.
Proof.
  intro H. apply Z.le_antisymm; apply injZ_le; rewrite H; apply Qcle_refl.
Qed.

Lemma injZ_sub (x y : Z) : (injZ x - injZ y)%Qc = injZ (x - y).
Proof.
  apply Qc_is_canon.
  unfold injZ, Qcminus, Qcplus, Qcopp, Q2Qc. cbn [this].
  rewrite !Qred_correct. unfold Z.sub.
  rewrite inject_Z_plus, inject_Z_opp. reflexivity.
Qed.

(** Two numbers built from equal rationals are equal; [reflexivity] decides
    the premise on closed terms. *)
Lemma Num_eq (x y : Qc) : (x == y)%Q -> Num x = Num y.
Proof. intro H. f_equal. apply Qc_is_canon, H. Qed.

Lemma nge_cases (x : number) (d : Z) :
  nge x (ofZ d) = true -> ngt x (ofZ d) = true \/ x = ofZ d.
Proof.
  unfold nge. intro H. apply orb_true_iff in H. destruct H as [H | H].
  - left. exact H.
  - right. destruct x; try discriminate H.
    cbn in H. apply Qceqb_true in H. unfold ofZ. congruence.
Qed.

Lemma ngt_irrefl_ofZ (d : Z) : ngt (ofZ d) (ofZ d) = false.
Proof. apply Qcltb_irrefl. Qed.

(** ** Frame normalisation *)

Lemma getAnimFrame_once (fuel : nat) (anim : AnimationBase) (frame : number) :
  loopMode anim = ONCE ->
  nge frame (ofZ (duration anim)) = true ->
  getAnimFrame fuel anim frame = Some (ofZ (duration anim)).
Proof.
  intros Hmode Hge. unfold getAnimFrame. rewrite Hmode.
  destruct (nge_cases _ _ Hge) as [Hgt | ->].
  - rewrite Hgt. reflexivity.
  - rewrite ngt_irrefl_ofZ. reflexivity.
Qed.

Lemma repeatLoop_stays (fuel : nat) (lastFrame frame : number) :
  ngt frame lastFrame = false ->
  repeatLoop (S fuel) lastFrame frame = Some frame.
Proof. intro H. cbn [repeatLoop]. rewrite H. reflexivity. Qed.

Lemma repeatLoop_step (fuel : nat) (lastFrame frame : number) :
  ngt frame lastFrame = true ->
  repeatLoop (S fuel) lastFrame frame
  = repeatLoop fuel lastFrame (frame - lastFrame)%num.
Proof. intro H. cbn [repeatLoop]. rewrite H. reflexivity. Qed.

(** With a duration of zero the loop never leaves a positive frame. *)
Lemma repeatLoop_zero_duration (fuel : nat) (q : Qc) :
  (0 < q)%Qc -> repeatLoop fuel (ofZ 0) (Num q) = None.
Proof.
  intro Hq. induction fuel as [| fuel IH].
  - reflexivity.
  - rewrite repeatLoop_step.
    + replace (Num q - ofZ 0)%num with (Num q); [exact IH |].
      apply Num_eq. qc2q. cbn. ring.
    + apply Qcltb_true. exact Hq.
Qed.

(** In a repeating container of duration [d], the frame [d + k] with
    [0 < k < d] is wrapped to [k], and [k] itself is left alone. *)
Lemma getAnimFrame_repeat_wrap (fuel : nat) (anim : AnimationBase) (k : Qc) :
  loopMode anim = REPEAT ->
  (0 < k)%Qc -> (k < injZ (duration anim))%Qc -> (2 <= fuel)%nat ->
  getAnimFrame fuel anim (ofZ (duration anim) + Num k)%num = Some (Num k)
  /\ getAnimFrame fuel anim (Num k) = Some (Num k).
Proof.
  intros Hmode H0 Hk Hfuel. unfold getAnimFrame. rewrite Hmode.
  destruct fuel as [| [| fuel]]; try lia.
  assert (Hstay : ngt (Num k) (ofZ (duration anim)) = false).
  { apply Qcltb_false. apply Qclt_le_weak. exact Hk. }
  split.
  - rewrite repeatLoop_step.
    + replace (ofZ (duration anim) + Num k - ofZ (duration anim))%num
        with (Num k).
      * apply repeatLoop_stays. exact Hstay.
      * unfold ofZ. cbn [nadd nsub nneg]. f_equal. ring.
    + apply Qcltb_true. qc2q. lra.
  - apply repeatLoop_stays. exact Hstay.
Qed.

(** ** Locating the bracketing keyframes *)

Lemma findIndex_first {A : Type} (p : A -> bool) (l : list A) (n : nat) (x : A) :
  nth_error l n = Some x -> p x = true ->
  (forall j y, (j < n)%nat -> nth_error l j = Some y -> p y = false) ->
  findIndex p l = Z.of_nat n.
Proof.
  revert n. induction l as [| h l IH]; intros n Hn Hp Hbefore.
  - destruct n; discriminate Hn.
  - destruct n as [| n].
    + cbn in Hn. injection Hn as ->. cbn [findIndex]. rewrite Hp. reflexivity.
    + cbn [findIndex].
      rewrite (Hbefore 0%nat h) by (lia || reflexivity).
      rewrite (IH n Hn Hp).
      * destruct (Z.ltb_spec (Z.of_nat n) 0); lia.
      * intros j y Hj Hy. apply (Hbefore (S j) y); [lia | exact Hy].
Qed.

Lemma arrayGet_of_nat {A : Type} (l : list A) (n : nat) :
  arrayGet l (Z.of_nat n) = nth_error l n.
Proof.
  unfold arrayGet. destruct (Z.ltb_spec (Z.of_nat n) 0); [lia |].
  rewrite Nat2Z.id. reflexivity.
Qed.

Lemma strictlyIncreasing_tail (t : Z) (times : list Z) :
  strictlyIncreasing (t :: times) = true -> strictlyIncreasing times = true.
Proof.
  destruct times as [| t1 rest]; [reflexivity |].
  cbn [strictlyIncreasing]. intro H. apply andb_true_iff in H. tauto.
Qed.

Lemma strictlyIncreasing_head (times : list Z) :
  forall (t : Z) (j : nat) (b : Z),
    strictlyIncreasing (t :: times) = true ->
    nth_error times j = Some b -> t < b.
Proof.
  induction times as [| t1 rest IH]; intros t j b Hs Hj.
  - destruct j; discriminate Hj.
  - pose proof (strictlyIncreasing_tail _ _ Hs) as Hs'.
    cbn [strictlyIncreasing] in Hs. apply andb_true_iff in Hs.
    destruct Hs as [Hlt _]. apply Z.ltb_lt in Hlt.
    destruct j as [| j].
    + cbn in Hj. injection Hj as <-. exact Hlt.
    + cbn in Hj. specialize (IH t1 j b Hs' Hj). lia.
Qed.

Lemma strictlyIncreasing_nth (times : list Z) :
  forall (i j : nat) (x y : Z),
    strictlyIncreasing times = true -> (i < j)%nat ->
    nth_error times i = Some x -> nth_error times j = Some y -> x < y.
Proof.
  induction times as [| t rest IH]; intros i j x y Hs Hij Hi Hj.
  - destruct i; discriminate Hi.
  - destruct j as [| j]; [lia |]. cbn in Hj.
    destruct i as [| i].
    + cbn in Hi. injection Hi as <-.
      exact (strictlyIncreasing_head rest t j y Hs Hj).
    + cbn in Hi.
      apply (IH i j x y (strictlyIncreasing_tail _ _ Hs)); [lia | | ]; assumption.
Qed.

(** A frame at or after time [t0] is not before any time up to [t0]. *)
Lemma nlt_false_before (frame : number) (t0 t : Z) :
  nge frame (ofZ t0) = true -> t <= t0 -> nlt frame (ofZ t) = false.
Proof.
  intros Hge Ht. destruct (nge_cases _ _ Hge) as [Hgt | ->].
  - destruct frame as [q | | |]; try discriminate Hgt; try reflexivity.
    cbn in Hgt |- *. apply Qcltb_true in Hgt. apply Qcltb_false.
    apply injZ_le in Ht. apply Qclt_le_weak.
    eapply Qcle_lt_trans; eassumption.
  - cbn. apply Qcltb_false, injZ_le, Ht.
Qed.

(** In a track with increasing times, [findIndex] stops at the keyframe
    right after the one the frame has reached. *)
Lemma findIndex_bracket {A : Type} (tm : A -> Z) (frames : list A)
    (i : nat) (k0 k1 : A) (frame : number) :
  strictlyIncreasing (map tm frames) = true ->
  nth_error frames i = Some k0 ->
  nth_error frames (S i) = Some k1 ->
  nge frame (ofZ (tm k0)) = true ->
  nlt frame (ofZ (tm k1)) = true ->
  findIndex (fun key => nlt frame (ofZ (tm key))) frames = Z.of_nat (S i).
Proof.
  intros Hs H0 H1 Hge Hlt.
  apply (findIndex_first _ frames (S i) k1 H1 Hlt).
  intros j y Hj Hy. apply (nlt_false_before frame (tm k0)); [exact Hge |].
  destruct (Nat.eq_dec j i) as [-> | Hne].
  - rewrite H0 in Hy. injection Hy as <-. lia.
  - apply Z.lt_le_incl.
    apply (strictlyIncreasing_nth (map tm frames) j i); try assumption; try lia.
    + rewrite nth_error_map, Hy. reflexivity.
    + rewrite nth_error_map, H0. reflexivity.
Qed.

Lemma length_not_one {A : Type} (l : list A) (i : nat) (x : A) :
  nth_error l (S i) = Some x -> Nat.eqb (List.length l) 1 = false.
Proof.
  intro H. apply Nat.eqb_neq.
  assert (S i < List.length l)%nat by (apply nth_error_Some; congruence).
  lia.
Qed.

(** What the linear sampler computes between two consecutive keyframes. *)
Lemma sampleAnimationTrackLinear_bracket (frames : list AnimationKeyframeLinear)
    (i : nat) (k0 k1 : AnimationKeyframeLinear) (frame : number) :
  strictlyIncreasing (map lin_time frames) = true ->
  nth_error frames i = Some k0 ->
  nth_error frames (S i) = Some k1 ->
  nge frame (ofZ (lin_time k0)) = true ->
  nlt frame (ofZ (lin_time k1)) = true ->
  sampleAnimationTrackLinear frames frame
  = Ok (lerp k0 k1 ((frame - ofZ (lin_time k0))
                    / (ofZ (lin_time k1) - ofZ (lin_time k0)))%num).
Proof.
  intros Hs H0 H1 Hge Hlt. unfold sampleAnimationTrackLinear.
  rewrite (length_not_one _ _ _ H1).
  rewrite (findIndex_bracket lin_time frames i k0 k1 frame Hs H0 H1 Hge Hlt).
  destruct (Z.ltb_spec (Z.of_nat (S i)) 0); [lia |].
  replace (Z.of_nat (S i) - 1) with (Z.of_nat i) by lia.
  rewrite !arrayGet_of_nat, H0, H1. reflexivity.
Qed.

(** ** Where sampling is defined *)

Lemma findIndex_spec {A : Type} (p : A -> bool) (l : list A) :
  findIndex p l = -1
  \/ exists (n : nat) (x : A),
       findIndex p l = Z.of_nat n /\ nth_error l n = Some x /\ p x = true.
Proof.
  induction l as [| h l IH]; cbn [findIndex].
  - left. reflexivity.
  - destruct (p h) eqn:Hp.
    + right. exists 0%nat, h. repeat split. exact Hp.
    + destruct IH as [-> | (n & x & -> & Hn & Hx)].
      * left. reflexivity.
      * right. exists (S n), x.
        destruct (Z.ltb_spec (Z.of_nat n) 0); [lia |].
        repeat split; [lia | exact Hn | exact Hx].
Qed.

(** At a frame that is not before the first keyframe, the two lookups of a
    sampler find their keyframes: the last one when no later keyframe
    exists, the one at [idx1 - 1] and the one at [idx1] otherwise. *)
Lemma bracket_defined {A : Type} (tm : A -> Z) (frames : list A) (first : A)
    (frame : number) :
  nth_error frames 0 = Some first ->
  nlt frame (ofZ (tm first)) = false ->
  let idx1 := findIndex (fun key => nlt frame (ofZ (tm key))) frames in
  ((idx1 <? 0) = true
   /\ exists k, arrayGet frames (Z.of_nat (List.length frames) - 1) = Some k)
  \/ ((idx1 <? 0) = false
      /\ exists k0 k1, arrayGet frames (idx1 - 1) = Some k0
                       /\ arrayGet frames idx1 = Some k1).
Proof.
  intros Hfirst Hnot idx1. subst idx1.
  destruct (findIndex_spec (fun key => nlt frame (ofZ (tm key))) frames)
    as [-> | (n & x & -> & Hn & Hx)].
  - left. split; [reflexivity |].
    destruct frames as [| h rest]; [discriminate Hfirst |].
    cbn [List.length].
    replace (Z.of_nat (S (List.length rest)) - 1)
      with (Z.of_nat (List.length rest)) by lia.
    rewrite arrayGet_of_nat.
    destruct (nth_error (h :: rest) (List.length rest)) eqn:Hlast.
    + eexists. reflexivity.
    + apply nth_error_None in Hlast. cbn [List.length] in Hlast. lia.
  - right. split; [apply Z.ltb_ge; lia |].
    destruct n as [| n].
    + rewrite Hfirst in Hn. injection Hn as <-. congruence.
    + replace (Z.of_nat (S n) - 1) with (Z.of_nat n) by lia.
      rewrite !arrayGet_of_nat.
      destruct (nth_error frames n) eqn:Hprev.
      * eexists. eexists. split; [reflexivity | exact Hn].
      * apply nth_error_None in Hprev.
        assert (S n < List.length frames)%nat
          by (apply nth_error_Some; congruence).
        lia.
Qed.

(** Sampling a track with at least one keyframe at a frame that is not
    before its first keyframe returns a number. *)
Lemma sampleAnimationTrack_defined (track : AnimationTrack) (frame : number)
    (t0 : Z) :
  nth_error (trackTimes track) 0 = Some t0 ->
  nlt frame (ofZ t0) = false ->
  exists v : number, sampleAnimationTrack track frame = Ok v.
Proof.
  intros Hfirst Hnot.
  destruct track as [frames | frames]; cbn [trackTimes] in Hfirst;
    rewrite nth_error_map in Hfirst;
    destruct (nth_error frames 0) as [first |] eqn:H0;
    try discriminate Hfirst; cbn in Hfirst; injection Hfirst as <-;
    cbn [sampleAnimationTrack].
  - unfold sampleAnimationTrackLinear.
    destruct (Nat.eqb (List.length frames) 1).
    + change 0 with (Z.of_nat 0). rewrite arrayGet_of_nat, H0.
      eexists. reflexivity.
    + destruct (bracket_defined lin_time frames first frame H0 Hnot)
        as [(-> & k & ->) | (-> & k0 & k1 & -> & ->)];
        eexists; reflexivity.
  - unfold sampleAnimationTrackHermite.
    destruct (Nat.eqb (List.length frames) 1).
    + change 0 with (Z.of_nat 0). rewrite arrayGet_of_nat, H0.
      eexists. reflexivity.
    + destruct (bracket_defined time frames first frame H0 Hnot)
        as [(-> & k & ->) | (-> & k0 & k1 & -> & ->)]; cbn [bind deref].
      * eexists. reflexivity.
      * destruct (neqb _ _); eexists; reflexivity.
Qed.

(** A slot without a track samples the default. *)
Lemma sampleSlot_absent (animEntry : AnimationEntry) (i : Z)
    (animFrame dflt : number) :
  arrayGet (tracks animEntry) i = None
  \/ arrayGet (tracks animEntry) i = Some None ->
  sampleSlot animEntry i animFrame dflt = Ok dflt.
Proof.
  intros [H | H]; unfold sampleSlot; rewrite H; reflexivity.
Qed.

(** ** Arithmetic of the interpolation *)

(** A frame between two integer times is a finite number. *)
Lemma frame_between_finite (frame : number) (t0 t1 : Z) :
  nge frame (ofZ t0) = true -> nlt frame (ofZ t1) = true ->
  exists f : Qc, frame = Num f /\ (injZ t0 <= f)%Qc /\ (f < injZ t1)%Qc.
Proof.
  intros Hge Hlt. destruct frame as [f | | |]; try discriminate Hlt.
  - exists f. split; [reflexivity |]. split.
    + destruct (nge_cases _ _ Hge) as [Hgt | Heq].
      * cbn in Hgt. apply Qcltb_true in Hgt. apply Qclt_le_weak, Hgt.
      * injection Heq as ->. apply Qcle_refl.
    + apply Qcltb_true. exact Hlt.
  - destruct (nge_cases _ _ Hge) as [Hgt | Heq]; discriminate.
Qed.

(** ** Sampling between keyframes *)

(** The linear sampler rounds after every operation, so what it returns
    between two keyframes is stated of the binary64 sampler [Binary64].  The
    order of binary64 numbers comes first: [<?] and [<=?] compare the places
    [Binary64.SFkey] of their operands. *)
Section Binary64Facts.
Import Floats.

Lemma SFcompare_SFkey (a b : spec_float) :
  match SFcompare a b with
  | None => Binary64.SFkey a = None \/ Binary64.SFkey b = None
  | Some c =>
      exists ka kb,
        Binary64.SFkey a = Some ka /\ Binary64.SFkey b = Some kb
        /\ match c with
           | Lt => Binary64.lexlt ka kb
           | Eq => ka = kb
           | Gt => Binary64.lexlt kb ka
           end
  end.
Proof.
  destruct a as [sa | sa | | sa ma ea]; destruct b as [sb | sb | | sb mb eb];
    try destruct sa; try destruct sb; cbn [SFcompare Binary64.SFkey];
    try (left; reflexivity); try (right; reflexivity);
    try (eexists; eexists; split; [reflexivity |]; split; [reflexivity |];
         cbn; first [reflexivity | lia]).
  - eexists. eexists. split; [reflexivity |]. split; [reflexivity |].
    destruct (Z.compare_spec ea eb); cbn [Binary64.lexlt]; try lia.
    subst. change (Pos.compare_cont Eq ma mb) with (Pos.compare ma mb).
    destruct (Pos.compare_spec ma mb); cbn [CompOpp]; try lia.
    subst. reflexivity.
  - eexists. eexists. split; [reflexivity |]. split; [reflexivity |].
    destruct (Z.compare_spec ea eb); cbn [Binary64.lexlt]; try lia.
    subst. change (Pos.compare_cont Eq ma mb) with (Pos.compare ma mb).
    destruct (Pos.compare_spec ma mb); try lia.
    subst. reflexivity.
Qed.

Lemma float_ltb_key (x y : float) :
  (x <? y)%float = true <->
  exists kx ky,
    Binary64.SFkey (Prim2SF x) = Some kx /\ Binary64.SFkey (Prim2SF y) = Some ky
    /\ Binary64.lexlt kx ky.
Proof.
  rewrite ltb_spec. unfold SFltb.
  pose proof (SFcompare_SFkey (Prim2SF x) (Prim2SF y)) as H.
  destruct (SFcompare (Prim2SF x) (Prim2SF y)) as [[| |] |].
  - destruct H as (kx & ky & Hx & Hy & Heq). split; [discriminate |].
    intros (kx' & ky' & Hx' & Hy' & Hlt). exfalso.
    rewrite Hx in Hx'. rewrite Hy in Hy'. injection Hx' as <-. injection Hy' as <-.
    subst ky. destruct kx as [[c x0] y0]. cbn in Hlt. lia.
  - destruct H as (kx & ky & Hx & Hy & Hlt). split; [| reflexivity].
    intros _. exists kx, ky. auto.
  - destruct H as (kx & ky & Hx & Hy & Hgt). split; [discriminate |].
    intros (kx' & ky' & Hx' & Hy' & Hlt). exfalso.
    rewrite Hx in Hx'. rewrite Hy in Hy'. injection Hx' as <-. injection Hy' as <-.
    destruct kx as [[c x0] y0]. destruct ky as [[c' x0'] y0']. cbn in Hlt, Hgt. lia.
  - split; [discriminate |].
    intros (kx' & ky' & Hx' & Hy' & Hlt). destruct H; congruence.
Qed.

Lemma float_leb_key (x y : float) :
  (x <=? y)%float = true <->
  exists kx ky,
    Binary64.SFkey (Prim2SF x) = Some kx /\ Binary64.SFkey (Prim2SF y) = Some ky
    /\ Binary64.lexle kx ky.
Proof.
  rewrite leb_spec. unfold SFleb.
  pose proof (SFcompare_SFkey (Prim2SF x) (Prim2SF y)) as H.
  destruct (SFcompare (Prim2SF x) (Prim2SF y)) as [[| |] |].
  - destruct H as (kx & ky & Hx & Hy & Heq). split; [| reflexivity].
    intros _. exists kx, ky. split; [exact Hx |]. split; [exact Hy |].
    right. exact Heq.
  - destruct H as (kx & ky & Hx & Hy & Hlt). split; [| reflexivity].
    intros _. exists kx, ky. split; [exact Hx |]. split; [exact Hy |].
    left. exact Hlt.
  - destruct H as (kx & ky & Hx & Hy & Hgt). split; [discriminate |].
    intros (kx' & ky' & Hx' & Hy' & Hle). exfalso.
    rewrite Hx in Hx'. rewrite Hy in Hy'. injection Hx' as <-. injection Hy' as <-.
    destruct kx as [[c x0] y0]. destruct ky as [[c' x0'] y0'].
    destruct Hle as [Hlt | Heq]; [cbn in Hlt, Hgt; lia |].
    injection Heq as -> -> ->. cbn in Hgt. lia.
  - split; [discriminate |].
    intros (kx' & ky' & Hx' & Hy' & Hlt). destruct H; congruence.
Qed.

Lemma float_ltb_trans (x y z : float) :
  (x <? y)%float = true -> (y <? z)%float = true -> (x <? z)%float = true.
Proof.
  rewrite !float_ltb_key.
  intros (kx & ky & Hx & Hy & H1) (ky' & kz & Hy' & Hz & H2).
  rewrite Hy in Hy'. injection Hy' as <-.
  exists kx, kz. split; [exact Hx |]. split; [exact Hz |].
  destruct kx as [[? ?] ?], ky as [[? ?] ?], kz as [[? ?] ?]. cbn in *. lia.
Qed.

(** A frame at or after time [y] is not before any time up to [y]. *)
Lemma float_ltb_false_before (x y f : float) :
  (x <? y)%float = true \/ x = y ->
  (y <=? f)%float = true -> (f <? x)%float = false.
Proof.
  intros Hxy Hyf. apply not_true_is_false. intro Hfx.
  apply float_leb_key in Hyf. apply float_ltb_key in Hfx.
  destruct Hyf as (ky & kf & Hy & Hf & Hle).
  destruct Hfx as (kf' & kx & Hf' & Hx & Hlt).
  rewrite Hf in Hf'. injection Hf' as <-.
  destruct Hxy as [Hxy | ->].
  - apply float_ltb_key in Hxy. destruct Hxy as (kx' & ky' & Hx' & Hy' & Hlt').
    rewrite Hx in Hx'. rewrite Hy in Hy'. injection Hx' as <-. injection Hy' as <-.
    destruct kx as [[? ?] ?], ky as [[? ?] ?], kf as [[? ?] ?].
    destruct Hle as [Hle | Heq]; [cbn in *; lia |].
    injection Heq as -> -> ->. cbn in *. lia.
  - rewrite Hx in Hy. injection Hy as <-.
    destruct kx as [[? ?] ?], kf as [[? ?] ?].
    destruct Hle as [Hle | Heq]; [cbn in *; lia |].
    injection Heq as -> -> ->. cbn in *. lia.
Qed.

Lemma float_strictlyIncreasing_tail (t : float) (times : list float) :
  Binary64.strictlyIncreasing (t :: times) = true ->
  Binary64.strictlyIncreasing times = true.
Proof.
  destruct times as [| t1 rest]; [reflexivity |].
  cbn [Binary64.strictlyIncreasing]. intro H. apply andb_true_iff in H. tauto.
Qed.

Lemma float_strictlyIncreasing_head (times : list float) :
  forall (t : float) (j : nat) (b : float),
    Binary64.strictlyIncreasing (t :: times) = true ->
    nth_error times j = Some b -> (t <? b)%float = true.
Proof.
  induction times as [| t1 rest IH]; intros t j b Hs Hj.
  - destruct j; discriminate Hj.
  - pose proof (float_strictlyIncreasing_tail _ _ Hs) as Hs'.
    cbn [Binary64.strictlyIncreasing] in Hs. apply andb_true_iff in Hs.
    destruct Hs as [Hlt _].
    destruct j as [| j].
    + cbn in Hj. injection Hj as <-. exact Hlt.
    + cbn in Hj. apply (float_ltb_trans t t1 b Hlt). exact (IH t1 j b Hs' Hj).
Qed.

Lemma float_strictlyIncreasing_nth (times : list float) :
  forall (i j : nat) (x y : float),
    Binary64.strictlyIncreasing times = true -> (i < j)%nat ->
    nth_error times i = Some x -> nth_error times j = Some y ->
    (x <? y)%float = true.
Proof.
  induction times as [| t rest IH]; intros i j x y Hs Hij Hi Hj.
  - destruct i; discriminate Hi.
  - destruct j as [| j]; [lia |]. cbn in Hj.
    destruct i as [| i].
    + cbn in Hi. injection Hi as <-.
      exact (float_strictlyIncreasing_head rest t j y Hs Hj).
    + cbn in Hi.
      apply (IH i j x y (float_strictlyIncreasing_tail _ _ Hs));
        [lia | | ]; assumption.
Qed.

(** In a track with increasing times, [findIndex] stops at the keyframe
    right after the one the frame has reached. *)
Lemma float_findIndex_bracket (frames : list Binary64.AnimationKeyframeLinear)
    (i : nat) (k0 k1 : Binary64.AnimationKeyframeLinear) (frame : float) :
  Binary64.strictlyIncreasing (map Binary64.time frames) = true ->
  nth_error frames i = Some k0 ->
  nth_error frames (S i) = Some k1 ->
  (Binary64.time k0 <=? frame)%float = true ->
  (frame <? Binary64.time k1)%float = true ->
  findIndex (fun key => (frame <? Binary64.time key)%float) frames
  = Z.of_nat (S i).
Proof.
  intros Hs H0 H1 Hge Hlt.
  apply (findIndex_first _ frames (S i) k1 H1 Hlt).
  intros j y Hj Hy.
  apply (float_ltb_false_before _ (Binary64.time k0)); [| exact Hge].
  destruct (Nat.eq_dec j i) as [-> | Hne].
  - rewrite H0 in Hy. injection Hy as <-. right. reflexivity.
  - left.
    apply (float_strictlyIncreasing_nth (map Binary64.time frames) j i);
      try assumption; try lia.
    + rewrite nth_error_map, Hy. reflexivity.
    + rewrite nth_error_map, H0. reflexivity.
Qed.

(** C7 (amended): for a linear track with increasing keyframe times and a
    frame between two consecutive keyframes [k0] and [k1]
    (k0.time <= frame < k1.time), sampling returns
    k0.value + (k1.value - k0.value) * t with
    t = (frame - k0.time) / (k1.time - k0.time), where every operation is the
    binary64 operation and they are done in this order: the fraction [t] is
    rounded before it is multiplied.  Two consecutive keyframes exist only in
    a track of at least two. *)
Theorem linear_sample_in_binary64
    (frames : list Binary64.AnimationKeyframeLinear) (i : nat)
    (k0 k1 : Binary64.AnimationKeyframeLinear) (frame : float) :
  Binary64.strictlyIncreasing (map Binary64.time frames) = true ->
  nth_error frames i = Some k0 ->
  nth_error frames (S i) = Some k1 ->
  (Binary64.time k0 <=? frame)%float = true ->
  (frame <? Binary64.time k1)%float = true ->
  Binary64.sampleAnimationTrackLinear frames frame
  = Ok (Binary64.value k0
        + (Binary64.value k1 - Binary64.value k0)
          * ((frame - Binary64.time k0)
             / (Binary64.time k1 - Binary64.time k0)))%float.
Proof.
  intros Hs H0 H1 Hge Hlt. unfold Binary64.sampleAnimationTrackLinear.
  rewrite (length_not_one _ _ _ H1).
  rewrite (float_findIndex_bracket frames i k0 k1 frame Hs H0 H1 Hge Hlt).
  destruct (Z.ltb_spec (Z.of_nat (S i)) 0); [lia |].
  replace (Z.of_nat (S i) - 1) with (Z.of_nat i) by lia.
  rewrite !arrayGet_of_nat, H0, H1. reflexivity.
Qed.

(** The track with keyframes (0, 0) and (10, 10) sampled at frame 5
    returns 5. *)
Lemma linear_sample_in_binary64_witness :
  Binary64.sampleAnimationTrackLinear Binary64.rampFrames 5 = Ok 5%float.
Proof.
  rewrite (linear_sample_in_binary64 Binary64.rampFrames 0
             {| Binary64.time := 0; Binary64.value := 0 |}
             {| Binary64.time := 10; Binary64.value := 10 |} 5);
    reflexivity.
Defined.

(** C7, counterexample: the track with keyframes (0, 0) and (49, 49), sampled
    at frame 1 between its two keyframes, returns 0.99999999999999989, the
    binary64 number right below 1.  The weighted average
    k0.value + (k1.value - k0.value) * (f - k0.time) / (k1.time - k0.time) of
    the claim is 1, evaluated exactly as well as evaluated in binary64 as it
    is written. *)
Lemma linear_sample_is_not_the_weighted_average :
  let k0 := {| Binary64.time := 0; Binary64.value := 0 |} in
  let k1 := {| Binary64.time := 49; Binary64.value := 49 |} in
  Binary64.strictlyIncreasing (map Binary64.time Binary64.longRampFrames) = true
  /\ nth_error Binary64.longRampFrames 0 = Some k0
  /\ nth_error Binary64.longRampFrames 1 = Some k1
  /\ (Binary64.time k0 <=? 1)%float = true
  /\ (1 <? Binary64.time k1)%float = true
  /\ Binary64.sampleAnimationTrackLinear Binary64.longRampFrames 1
     = Ok 0x1.fffffffffffffp-1%float
  /\ (0x1.fffffffffffffp-1 <? 1)%float = true
  /\ Binary64.weightedAverage k0 k1 1 = 1%float
  /\ (ofZ 0 + (ofZ 49 - ofZ 0) * (ofZ 1 - ofZ 0) / (ofZ 49 - ofZ 0))%num
     = ofZ 1
  /\ Binary64.sampleAnimationTrackLinear Binary64.longRampFrames 1
     <> Ok (Binary64.weightedAverage k0 k1 1).
Proof.
  cbv zeta. do 9 (split; [reflexivity |]).
  intro H.
  apply (f_equal (fun r => match r with
                           | Ok a => Prim2SF a
                           | Err _ => S754_nan
                           end)) in H.
  vm_compute in H. discriminate H.
Qed.

End Binary64Facts.

(** C8: for a Hermite track with increasing keyframe times, when the two
    keyframes that bracket the frame are exactly one frame apart, sampling
    returns the value of the earlier keyframe. *)
Theorem hermite_one_frame_apart_returns_first
    (frames : list AnimationKeyframeHermite) (i : nat)
    (k0 k1 : AnimationKeyframeHermite) (frame : number) :
  strictlyIncreasing (map time frames) = true ->
  nth_error frames i = Some k0 ->
  nth_error frames (S i) = Some k1 ->
  nge frame (ofZ (time k0)) = true ->
  nlt frame (ofZ (time k1)) = true ->
  time k1 - time k0 = 1 ->
  sampleAnimationTrack (AnimationTrackHermite frames) frame = Ok (value k0).
Proof.
  intros Hs H0 H1 Hge Hlt Hone.
  cbn [sampleAnimationTrack]. unfold sampleAnimationTrackHermite.
  rewrite (length_not_one _ _ _ H1).
  rewrite (findIndex_bracket time frames i k0 k1 frame Hs H0 H1 Hge Hlt).
  destruct (Z.ltb_spec (Z.of_nat (S i)) 0); [lia |].
  replace (Z.of_nat (S i) - 1) with (Z.of_nat i) by lia.
  rewrite !arrayGet_of_nat, H0, H1. cbn [bind deref].
  replace (ofZ (time k1) - ofZ (time k0))%num with (ofZ 1).
  - cbn [neqb ofZ]. rewrite (proj2 (Qceqb_true _ _) eq_refl). reflexivity.
  - unfold ofZ. cbn [nsub nadd nneg]. f_equal.
    rewrite <- Hone. symmetry. apply injZ_sub.
Qed.

(** Keyframes at frames 4 and 5 with values 3 and 7: frame 4.5 samples 3. *)
Lemma hermite_one_frame_apart_returns_first_witness :
  sampleAnimationTrack (AnimationTrackHermite stepFrames) fourAndAHalf
  = Ok (ofZ 3).
Proof.
  apply (hermite_one_frame_apart_returns_first stepFrames 0
           {| time := 4; value := ofZ 3; tangentIn := ofZ 0; tangentOut := ofZ 2 |}
           {| time := 5; value := ofZ 7; tangentIn := ofZ 2; tangentOut := ofZ 0 |}
           fourAndAHalf);
    reflexivity.
Defined.

(** ** Loop modes *)

(** Everything sampled through [getAnimFrame] agrees on two input frames
    that normalise to the same frame. *)
Lemma same_normalised_frame (fuel : nat) (cmab : CMAB)
    (animEntry : AnimationEntry) (track : AnimationTrack) (f1 f2 : number) :
  getAnimFrame fuel cmab f1 = getAnimFrame fuel cmab f2 ->
  sampleAt fuel cmab track f1 = sampleAt fuel cmab track f2
  /\ calcTexMtx fuel cmab animEntry f1 = calcTexMtx fuel cmab animEntry f2
  /\ calcMaterialColor fuel cmab animEntry f1
     = calcMaterialColor fuel cmab animEntry f2.
Proof.
  intro H. unfold sampleAt, calcTexMtx, calcMaterialColor.
  rewrite H. repeat split.
Qed.

(** C9: in a container with loop mode Once, an input frame at or past the
    duration is normalised to the duration, so a track, a texture matrix and
    a material colour sampled at that frame are those sampled exactly at the
    duration. *)
Theorem once_samples_at_duration (fuel : nat) (cmab : CMAB)
    (animEntry : AnimationEntry) (track : AnimationTrack) (frame : number) :
  loopMode cmab = ONCE ->
  nge frame (ofZ (duration cmab)) = true ->
  getAnimFrame fuel cmab frame = Some (ofZ (duration cmab))
  /\ sampleAt fuel cmab track frame
     = sampleAt fuel cmab track (ofZ (duration cmab))
  /\ calcTexMtx fuel cmab animEntry frame
     = calcTexMtx fuel cmab animEntry (ofZ (duration cmab))
  /\ calcMaterialColor fuel cmab animEntry frame
     = calcMaterialColor fuel cmab animEntry (ofZ (duration cmab)).
Proof.
  intros Hmode Hge.
  assert (H1 : getAnimFrame fuel cmab frame = Some (ofZ (duration cmab)))
    by (apply getAnimFrame_once; assumption).
  assert (H2 : getAnimFrame fuel cmab (ofZ (duration cmab))
               = Some (ofZ (duration cmab))).
  { apply getAnimFrame_once; [assumption |].
    unfold nge. rewrite ngt_irrefl_ofZ. cbn [orb neqb ofZ].
    apply Qceqb_true. reflexivity. }
  split; [exact H1 |].
  apply same_normalised_frame. rewrite H1, H2. reflexivity.
Qed.

(** The ramp played once: frame 15 samples what frame 10 samples, the last
    value 10. *)
Lemma once_samples_at_duration_witness :
  sampleAt 0 onceTen rampTrack (ofZ 15) = sampleAt 0 onceTen rampTrack (ofZ 10)
  /\ sampleAt 0 onceTen rampTrack (ofZ 10) = Some (Ok (ofZ 10)).
Proof.
  split.
  - apply (once_samples_at_duration 0 onceTen rampEntry rampTrack (ofZ 15));
      reflexivity.
  - reflexivity.
Defined.

(** C2, as the code has it: in a container with loop mode Repeat and
    duration d, for every k with 0 < k < d, the input frame d + k is wrapped
    to k once the loop is given the two tests it needs, so a track, a texture
    matrix and a material colour sampled at d + k are those sampled at k. *)
Theorem repeat_wraps_past_duration (fuel : nat) (cmab : CMAB)
    (animEntry : AnimationEntry) (track : AnimationTrack) (k : Qc) :
  loopMode cmab = REPEAT ->
  (0 < k)%Qc -> (k < injZ (duration cmab))%Qc -> (2 <= fuel)%nat ->
  getAnimFrame fuel cmab (ofZ (duration cmab) + Num k)%num = Some (Num k)
  /\ sampleAt fuel cmab track (ofZ (duration cmab) + Num k)%num
     = sampleAt fuel cmab track (Num k)
  /\ calcTexMtx fuel cmab animEntry (ofZ (duration cmab) + Num k)%num
     = calcTexMtx fuel cmab animEntry (Num k)
  /\ calcMaterialColor fuel cmab animEntry (ofZ (duration cmab) + Num k)%num
     = calcMaterialColor fuel cmab animEntry (Num k).
Proof.
  intros Hmode H0 Hk Hfuel.
  destruct (getAnimFrame_repeat_wrap fuel cmab k Hmode H0 Hk Hfuel) as [H1 H2].
  split; [exact H1 |].
  apply same_normalised_frame. rewrite H1, H2. reflexivity.
Qed.

(** The ramp repeated: frame 10 + 5 samples what frame 5 samples, 5. *)
Lemma repeat_wraps_past_duration_witness :
  sampleAt 2 repeatTen rampTrack (ofZ 10 + ofZ 5)%num
  = sampleAt 2 repeatTen rampTrack (ofZ 5)
  /\ sampleAt 2 repeatTen rampTrack (ofZ 5) = Some (Ok (ofZ 5)).
Proof.
  split.
  - apply (repeat_wraps_past_duration 2 repeatTen rampEntry rampTrack (injZ 5));
      [reflexivity | reflexivity | reflexivity | lia].
  - reflexivity.
Defined.

(** C2 fails at k = 0: the frame 10 + 0 of the repeated ramp is not wrapped,
    and samples the last value 10, where frame 0 samples the first value 0. *)
Lemma repeat_does_not_wrap_duration :
  (0 <= injZ 0)%Qc /\ (injZ 0 < injZ (duration repeatTen))%Qc
  /\ sampleAt 2 repeatTen rampTrack (ofZ (duration repeatTen) + ofZ 0)%num
     = Some (Ok (ofZ 10))
  /\ sampleAt 2 repeatTen rampTrack (ofZ 0) = Some (Ok (ofZ 0))
  /\ sampleAt 2 repeatTen rampTrack (ofZ (duration repeatTen) + ofZ 0)%num
     <> sampleAt 2 repeatTen rampTrack (ofZ 0).
Proof.
  assert (H10 : sampleAt 2 repeatTen rampTrack
                  (ofZ (duration repeatTen) + ofZ 0)%num = Some (Ok (ofZ 10)))
    by reflexivity.
  assert (H0 : sampleAt 2 repeatTen rampTrack (ofZ 0) = Some (Ok (ofZ 0)))
    by reflexivity.
  repeat split; try assumption.
  - discriminate.
  - rewrite H10, H0. intro H. injection H as H. discriminate H.
Qed.

(** ** Termination of the frame normalisation *)

(** C4 fails on the code: the container parsed from [zeroDurationBuffer] has
    duration 0 and repeats, and for the input frame 1 the loop of
    [getAnimFrame] is still running after any number of tests, so neither
    [calcTexMtx] nor the sampling of a track returns. *)
Theorem getAnimFrame_diverges_on_zero_duration :
  exists cmab : CMAB,
    parse Ocarina zeroDurationBuffer = Ok cmab
    /\ duration cmab = 0 /\ loopMode cmab = REPEAT
    /\ forall fuel : nat,
         getAnimFrame fuel cmab (ofZ 1) = None
         /\ (forall animEntry, calcTexMtx fuel cmab animEntry (ofZ 1) = None)
         /\ (forall track, sampleAt fuel cmab track (ofZ 1) = None).
Proof.
  eexists. split; [vm_compute; reflexivity |].
  split; [reflexivity |]. split; [reflexivity |].
  intro fuel.
  assert (H : forall anim : AnimationBase,
             duration anim = 0 -> loopMode anim = REPEAT ->
             getAnimFrame fuel anim (ofZ 1) = None).
  { intros anim Hd Hm. unfold getAnimFrame. rewrite Hd, Hm.
    apply repeatLoop_zero_duration. reflexivity. }
  split; [| split].
  - apply H; reflexivity.
  - intro animEntry. unfold calcTexMtx. rewrite H; reflexivity.
  - intro track. unfold sampleAt. rewrite H; reflexivity.
Qed.

(** ** Sampling before the first keyframe *)

(** C3 fails on the code: the container parsed from [lateStartBuffer] is
    well formed, its translation entry passes the constructor of
    [TextureAnimator], and its track has the increasing times 5 and 10; for
    the input frame 0 [findIndex] answers 0, the keyframe at index -1 is
    [undefined], and [calcTexMtx] ends with a [TypeError]. *)
Theorem sampling_before_first_keyframe_throws :
  exists (cmab : CMAB) (animEntry : AnimationEntry) (track : AnimationTrack),
    parse Ocarina lateStartBuffer = Ok cmab
    /\ animEntries cmab = [animEntry]
    /\ newTextureAnimator cmab animEntry = Ok (cmab, animEntry)
    /\ tracks animEntry = [Some track]
    /\ trackTimes track = [5; 10]
    /\ strictlyIncreasing (trackTimes track) = true
    /\ sampleAnimationTrack track (ofZ 0) = Err TypeError
    /\ forall fuel : nat,
         calcTexMtx (S fuel) cmab animEntry (ofZ 0) = Some (Err TypeError).
Proof.
  do 3 eexists. split; [vm_compute; reflexivity |].
  split; [reflexivity |]. split; [reflexivity |]. split; [reflexivity |].
  split; [reflexivity |]. split; [reflexivity |]. split; [reflexivity |].
  intro fuel. unfold calcTexMtx, getAnimFrame. cbn [base duration loopMode].
  rewrite repeatLoop_stays by reflexivity. reflexivity.
Qed.

(** ** Track parser *)

Lemma getUint8_in_bounds (buffer : ArrayBufferSlice) (offs : Z) :
  0 <= offs -> (Z.to_nat offs < List.length buffer)%nat ->
  exists b : Z, getUint8 buffer offs = Ok b.
Proof.
  intros H0 Hlen. unfold getUint8.
  destruct (Z.ltb_spec offs 0); [lia |].
  destruct (nth_error buffer (Z.to_nat offs)) eqn:Hnth.
  - eexists. reflexivity.
  - apply nth_error_None in Hnth. lia.
Qed.

Lemma getUint16_in_bounds (buffer : ArrayBufferSlice) (offs : Z) :
  0 <= offs -> (Z.to_nat offs + 2 <= List.length buffer)%nat ->
  exists u : Z, getUint16 buffer offs = Ok u.
Proof.
  intros H0 Hlen. unfold getUint16.
  destruct (getUint8_in_bounds buffer offs) as [b0 ->]; [lia | lia |].
  destruct (getUint8_in_bounds buffer (offs + 1)) as [b1 ->]; [lia | lia |].
  eexists. reflexivity.
Qed.

Lemma getUint32_in_bounds (buffer : ArrayBufferSlice) (offs : Z) :
  0 <= offs -> (Z.to_nat offs + 4 <= List.length buffer)%nat ->
  exists u : Z, getUint32 buffer offs = Ok u.
Proof.
  intros H0 Hlen. unfold getUint32.
  destruct (getUint8_in_bounds buffer offs) as [b0 ->]; [lia | lia |].
  destruct (getUint8_in_bounds buffer (offs + 1)) as [b1 ->]; [lia | lia |].
  destruct (getUint8_in_bounds buffer (offs + 2)) as [b2 ->]; [lia | lia |].
  destruct (getUint8_in_bounds buffer (offs + 3)) as [b3 ->]; [lia | lia |].
  eexists. reflexivity.
Qed.

Lemma getFloat32_in_bounds (buffer : ArrayBufferSlice) (offs : Z) :
  0 <= offs -> (Z.to_nat offs + 4 <= List.length buffer)%nat ->
  exists x : number, getFloat32 buffer offs = Ok x.
Proof.
  intros H0 Hlen. unfold getFloat32.
  destruct (getUint32_in_bounds buffer offs H0 Hlen) as [u ->].
  eexists. reflexivity.
Qed.

(** A buffer of at least 16 bytes has a complete track header, whose type
    and count are the declared ones. *)
Lemma readTrackHeader_complete (version : Version) (buffer : ArrayBufferSlice)
    (type numKeyframes : Z) :
  (16 <= List.length buffer)%nat ->
  declaredType version buffer = Ok type ->
  declaredCount version buffer = Ok numKeyframes ->
  readTrackHeader version buffer = Ok (type, numKeyframes).
Proof.
  intros Hlen Htype Hcount. unfold readTrackHeader.
  destruct version; cbn [declaredType declaredCount] in Htype, Hcount;
    rewrite Htype, Hcount; cbn [bind].
  - destruct (getUint32_in_bounds buffer 0x08) as [u1 ->]; [lia | cbn; lia |].
    destruct (getUint32_in_bounds buffer 0x0C) as [u2 ->]; [lia | cbn; lia |].
    reflexivity.
  - destruct (getUint32_in_bounds buffer 0x04) as [u1 ->]; [lia | cbn; lia |].
    destruct (getFloat32_in_bounds buffer 0x08) as [x ->]; [lia | cbn; lia |].
    destruct (getUint32_in_bounds buffer 0x0C) as [u2 ->]; [lia | cbn; lia |].
    reflexivity.
Qed.

(** C10: for either format version, a track buffer with a complete header
    whose declared keyframe count is zero parses as the absent track,
    whatever its type field holds. *)
Theorem zero_keyframes_parse_as_no_track (version : Version)
    (buffer : ArrayBufferSlice) (type : Z) :
  (16 <= List.length buffer)%nat ->
  declaredType version buffer = Ok type ->
  declaredCount version buffer = Ok 0 ->
  parseTrack version buffer = Ok None.
Proof.
  intros Hlen Htype Hcount. unfold parseTrack.
  rewrite (readTrackHeader_complete version buffer type 0 Hlen Htype Hcount).
  reflexivity.
Qed.

(** A Majora header that declares type 0x03 and no keyframe is the absent
    track. *)
Lemma zero_keyframes_parse_as_no_track_witness :
  declaredType Majora emptyTypeThreeMajora = Ok 0x03
  /\ parseTrack Majora emptyTypeThreeMajora = Ok None.
Proof.
  split.
  - reflexivity.
  - apply (zero_keyframes_parse_as_no_track Majora emptyTypeThreeMajora 0x03).
    + cbn. lia.
    + reflexivity.
    + reflexivity.
Defined.

(** C5 fails for a track without keyframes: the Ocarina header that declares
    type 0x03 and zero keyframes parses, as the absent track. *)
Lemma type_three_without_keyframes_parses :
  declaredType Ocarina emptyTypeThreeOcarina = Ok 0x03
  /\ parseTrack Ocarina emptyTypeThreeOcarina = Ok None
  /\ parseTrack Ocarina emptyTypeThreeOcarina <> Err UnsupportedTrackType.
Proof.
  split; [reflexivity |]. split; [reflexivity |].
  intro H. discriminate H.
Qed.

(** C5, as the code has it: for either format version, a track buffer with a
    complete header that declares at least one keyframe and a type other than
    Linear (1) and Hermite (2) fails with [UnsupportedTrackType]. *)
Theorem unsupported_type_with_keyframes_fails (version : Version)
    (buffer : ArrayBufferSlice) (type numKeyframes : Z) :
  (16 <= List.length buffer)%nat ->
  declaredType version buffer = Ok type ->
  declaredCount version buffer = Ok numKeyframes ->
  numKeyframes <> 0 ->
  type <> LINEAR -> type <> HERMITE ->
  parseTrack version buffer = Err UnsupportedTrackType.
Proof.
  intros Hlen Htype Hcount Hn Hlin Hher. unfold parseTrack.
  rewrite (readTrackHeader_complete version buffer type numKeyframes
             Hlen Htype Hcount).
  cbn [bind].
  destruct (Z.eqb_spec numKeyframes 0); [contradiction |].
  destruct (Z.eqb_spec type LINEAR); [contradiction |].
  destruct (Z.eqb_spec type HERMITE); [contradiction |].
  reflexivity.
Qed.

(** The Ocarina header that declares type 0x03 and one keyframe fails. *)
Lemma unsupported_type_with_keyframes_fails_witness :
  declaredType Ocarina typeThreeOneKeyframe = Ok 0x03
  /\ parseTrack Ocarina typeThreeOneKeyframe = Err UnsupportedTrackType.
Proof.
  split.
  - reflexivity.
  - apply (unsupported_type_with_keyframes_fails Ocarina typeThreeOneKeyframe
             0x03 1).
    + cbn. lia.
    + reflexivity.
    + reflexivity.
    + discriminate.
    + discriminate.
    + discriminate.
Defined.

Lemma bind_Ok_inv {A B : Type} (r : result A) (k : A -> result B) (b : B) :
  bind r k = Ok b -> exists a : A, r = Ok a /\ k a = Ok b.
Proof.
  destruct r as [a | e]; cbn [bind]; intro H.
  - exists a. split; [reflexivity | exact H].
  - discriminate H.
Qed.

(** Every keyframe of a parsed Hermite track holds, as its tangents, the
    unsigned integers [getUint32] reads in the two tangent slots. *)
Lemma readKeyframesHermite_tangents (buffer : ArrayBufferSlice) :
  forall (n : nat) (idx : Z) (frames : list AnimationKeyframeHermite)
         (i : nat) (k : AnimationKeyframeHermite),
    readKeyframesHermite buffer n idx = Ok frames ->
    nth_error frames i = Some k ->
    exists tin tout : Z,
      getUint32 buffer (idx + 0x10 * Z.of_nat i + 0x08) = Ok tin
      /\ getUint32 buffer (idx + 0x10 * Z.of_nat i + 0x0C) = Ok tout
      /\ tangentIn k = ofZ tin /\ tangentOut k = ofZ tout.
Proof.
  induction n as [| n IH]; intros idx frames i k Hread Hnth.
  - cbn in Hread. injection Hread as <-. destruct i; discriminate Hnth.
  - cbn [readKeyframesHermite] in Hread.
    apply bind_Ok_inv in Hread. destruct Hread as (t & Ht & Hread).
    apply bind_Ok_inv in Hread. destruct Hread as (v & Hv & Hread).
    apply bind_Ok_inv in Hread. destruct Hread as (tin & Hin & Hread).
    apply bind_Ok_inv in Hread. destruct Hread as (tout & Hout & Hread).
    apply bind_Ok_inv in Hread. destruct Hread as (rest & Hrest & Hread).
    injection Hread as <-.
    destruct i as [| i].
    + cbn in Hnth. injection Hnth as <-. exists tin, tout.
      replace (idx + 0x10 * Z.of_nat 0 + 0x08) with (idx + 0x08) by lia.
      replace (idx + 0x10 * Z.of_nat 0 + 0x0C) with (idx + 0x0C) by lia.
      repeat split; assumption.
    + cbn in Hnth.
      destruct (IH (idx + 0x10) rest i k Hrest Hnth)
        as (tin' & tout' & Hin' & Hout' & Hk).
      exists tin', tout'.
      replace (idx + 0x10 * Z.of_nat (S i) + 0x08)
        with (idx + 0x10 + 0x10 * Z.of_nat i + 0x08) by lia.
      replace (idx + 0x10 * Z.of_nat (S i) + 0x0C)
        with (idx + 0x10 + 0x10 * Z.of_nat i + 0x0C) by lia.
      repeat split; tauto.
Qed.

Lemma parseTrack_hermite_tangents (version : Version)
    (buffer : ArrayBufferSlice) (frames : list AnimationKeyframeHermite)
    (i : nat) (k : AnimationKeyframeHermite) :
  parseTrack version buffer = Ok (Some (AnimationTrackHermite frames)) ->
  nth_error frames i = Some k ->
  exists tin tout : Z,
    getUint32 buffer (0x10 + 0x10 * Z.of_nat i + 0x08) = Ok tin
    /\ getUint32 buffer (0x10 + 0x10 * Z.of_nat i + 0x0C) = Ok tout
    /\ tangentIn k = ofZ tin /\ tangentOut k = ofZ tout.
Proof.
  unfold parseTrack. intros Hparse Hnth.
  apply bind_Ok_inv in Hparse. destruct Hparse as ([type n] & _ & Hparse).
  destruct (n =? 0); [discriminate Hparse |].
  destruct (type =? LINEAR).
  - apply bind_Ok_inv in Hparse. destruct Hparse as (l & _ & Hparse).
    discriminate Hparse.
  - destruct (type =? HERMITE); [| discriminate Hparse].
    apply bind_Ok_inv in Hparse. destruct Hparse as (l & Hl & Hparse).
    injection Hparse as ->.
    exact (readKeyframesHermite_tangents buffer _ _ _ i k Hl Hnth).
Qed.

(** C1 fails on the code: the two tangent slots of the keyframe of
    [hermiteTrackBuffer] hold the bytes of the floats 1.0 and 2.0, and the
    parsed keyframe has the tangents 1065353216 and 1073741824, the unsigned
    integers those bytes spell; its value is the float of its slot. *)
Theorem hermite_tangents_read_as_integers :
  exists k : AnimationKeyframeHermite,
    parseTrack Ocarina hermiteTrackBuffer
    = Ok (Some (AnimationTrackHermite [k]))
    /\ getFloat32 hermiteTrackBuffer 0x14 = Ok (value k)
    /\ getFloat32 hermiteTrackBuffer 0x18 = Ok (ofZ 1)
    /\ tangentIn k = ofZ 1065353216
    /\ tangentIn k <> ofZ 1
    /\ getFloat32 hermiteTrackBuffer 0x1C = Ok (ofZ 2)
    /\ tangentOut k = ofZ 1073741824
    /\ tangentOut k <> ofZ 2.
Proof.
  eexists. split; [vm_compute; reflexivity |].
  cbn [value tangentIn tangentOut].
  split; [vm_compute; reflexivity |].
  split; [vm_compute; f_equal; apply Num_eq; reflexivity |].
  split; [reflexivity |].
  split; [intro H; injection H as H; discriminate H |].
  split; [vm_compute; f_equal; apply Num_eq; reflexivity |].
  split; [reflexivity |].
  intro H. injection H as H. discriminate H.
Qed.

(** ** Container parser *)

Lemma onlyFails_Ok {A : Type} (P : error -> Prop) (a : A) :
  onlyFails P (Ok a).
Proof. intros e H. discriminate H. Qed.

Lemma onlyFails_Err {A : Type} (P : error -> Prop) (e : error) :
  P e -> onlyFails P (@Err A e).
Proof. intros He e' H. injection H as <-. exact He. Qed.

Lemma onlyFails_bind {A B : Type} (P : error -> Prop) (r : result A)
    (k : A -> result B) :
  onlyFails P r -> (forall a : A, onlyFails P (k a)) ->
  onlyFails P (bind r k).
Proof.
  intros Hr Hk e H. destruct r as [a | e0]; cbn [bind] in H.
  - exact (Hk a e H).
  - injection H as <-. apply Hr. reflexivity.
Qed.

Lemma onlyFails_weaken {A : Type} (P Q : error -> Prop) (r : result A) :
  (forall e, P e -> Q e) -> onlyFails P r -> onlyFails Q r.
Proof. intros HPQ Hr e H. apply HPQ, Hr, H. Qed.

Lemma malformed_is_parse_error (e : error) : isMalformedData e -> isParseError e.
Proof. intro H. left. exact H. Qed.

(** One step through a parser: a bind, a branch or a final result. *)
Ltac fails_step :=
  lazymatch goal with
  | |- onlyFails _ (bind _ _) => apply onlyFails_bind; [| intros ?]
  | |- onlyFails _ (Ok _) => apply onlyFails_Ok
  | |- onlyFails _ (Err _) =>
      apply onlyFails_Err; first [reflexivity | left; reflexivity
                                  | right; reflexivity]
  | |- onlyFails _ (if ?c then _ else _) => destruct c
  | |- onlyFails _ (match ?v with Ocarina => _ | Majora => _ end) => destruct v
  | |- onlyFails _ (let '(_, _) := ?p in _) => destruct p
  end.

Create HintDb reads discriminated.

Lemma getUint8_fails (buffer : ArrayBufferSlice) (offs : Z) :
  onlyFails isMalformedData (getUint8 buffer offs).
Proof.
  unfold getUint8. fails_step; [fails_step |].
  destruct (nth_error buffer (Z.to_nat offs)); fails_step.
Qed.
#[local] Hint Resolve getUint8_fails : reads.

Lemma getUint16_fails (buffer : ArrayBufferSlice) (offs : Z) :
  onlyFails isMalformedData (getUint16 buffer offs).
Proof. unfold getUint16. repeat fails_step; auto with reads. Qed.
#[local] Hint Resolve getUint16_fails : reads.

Lemma getUint32_fails (buffer : ArrayBufferSlice) (offs : Z) :
  onlyFails isMalformedData (getUint32 buffer offs).
Proof. unfold getUint32. repeat fails_step; auto with reads. Qed.
#[local] Hint Resolve getUint32_fails : reads.

Lemma getFloat32_fails (buffer : ArrayBufferSlice) (offs : Z) :
  onlyFails isMalformedData (getFloat32 buffer offs).
Proof. unfold getFloat32. repeat fails_step; auto with reads. Qed.
#[local] Hint Resolve getFloat32_fails : reads.

Lemma readString_fails (buffer : ArrayBufferSlice) (offs : Z) (n : nat) :
  onlyFails isMalformedData (readString buffer offs n).
Proof. unfold readString. repeat fails_step. Qed.
#[local] Hint Resolve readString_fails : reads.

Lemma assert_fails (c : bool) : onlyFails isMalformedData (assert c).
Proof. unfold assert. repeat fails_step. Qed.
#[local] Hint Resolve assert_fails : reads.

(** The readers fail with [MalformedData], which is a parse error. *)
Ltac reads_fail :=
  apply (onlyFails_weaken isMalformedData isParseError);
  [exact malformed_is_parse_error | solve [auto with reads]].

Lemma readKeyframesLinear_fails (buffer : ArrayBufferSlice) (n : nat) :
  forall idx : Z, onlyFails isParseError (readKeyframesLinear buffer n idx).
Proof.
  induction n as [| n IH]; intro idx; cbn [readKeyframesLinear].
  - fails_step.
  - repeat fails_step; try reads_fail. apply IH.
Qed.

Lemma readKeyframesHermite_fails (buffer : ArrayBufferSlice) (n : nat) :
  forall idx : Z, onlyFails isParseError (readKeyframesHermite buffer n idx).
Proof.
  induction n as [| n IH]; intro idx; cbn [readKeyframesHermite].
  - fails_step.
  - repeat fails_step; try reads_fail. apply IH.
Qed.

Lemma parseTrack_fails (version : Version) (buffer : ArrayBufferSlice) :
  onlyFails isParseError (parseTrack version buffer).
Proof.
  unfold parseTrack, readTrackHeader.
  repeat fails_step; try reads_fail;
    first [apply readKeyframesLinear_fails | apply readKeyframesHermite_fails].
Qed.

Lemma parseTrackSlots_fails (version : Version) (buffer : ArrayBufferSlice)
    (n : nat) :
  forall (i : nat) (idx : Z) (tracks : TrackArray),
    onlyFails isParseError (parseTrackSlots version buffer n i idx tracks).
Proof.
  induction n as [| n IH]; intros i idx tracks; cbn [parseTrackSlots].
  - fails_step.
  - fails_step; [reads_fail |]. fails_step; [apply IH |].
    fails_step; [apply parseTrack_fails | apply IH].
Qed.

Lemma parseMmad_fails (version : Version) (buffer : ArrayBufferSlice) :
  onlyFails isParseError (parseMmad version buffer).
Proof.
  unfold parseMmad.
  repeat fails_step; try reads_fail. apply parseTrackSlots_fails.
Qed.

Lemma parseEntries_fails (version : Version) (buffer : ArrayBufferSlice)
    (offs : Z) (n : nat) :
  forall idx : Z, onlyFails isParseError (parseEntries version buffer offs n idx).
Proof.
  induction n as [| n IH]; intro idx; cbn [parseEntries].
  - fails_step.
  - fails_step; [reads_fail |]. fails_step; [apply parseMmad_fails |].
    fails_step; [apply IH | fails_step].
Qed.

Lemma parse_fails (version : Version) (buffer : ArrayBufferSlice) :
  onlyFails isParseError (parse version buffer).
Proof.
  unfold parse.
  repeat fails_step; try reads_fail. apply parseEntries_fails.
Qed.

Lemma parseEntries_length (version : Version) (buffer : ArrayBufferSlice)
    (offs : Z) (n : nat) :
  forall (idx : Z) (entries : list AnimationEntry),
    parseEntries version buffer offs n idx = Ok entries ->
    List.length entries = n.
Proof.
  induction n as [| n IH]; intros idx entries H; cbn [parseEntries] in H.
  - injection H as <-. reflexivity.
  - apply bind_Ok_inv in H. destruct H as (o & _ & H).
    apply bind_Ok_inv in H. destruct H as (entry & _ & H).
    apply bind_Ok_inv in H. destruct H as (rest & Hrest & H).
    injection H as <-. cbn [List.length]. f_equal. exact (IH _ _ Hrest).
Qed.

(** Peels the binds of a successful parse off [H], down to its result. *)
Ltac peel H :=
  repeat (apply bind_Ok_inv in H;
          let x := fresh "x" in
          let Hx := fresh "Hx" in
          destruct H as (x & Hx & H)).

(** A container that [parse] returns has the duration read at 0x24, repeats,
    and holds as many entries as the count at 0x38 announces. *)
Lemma parse_Ok_populated (version : Version) (buffer : ArrayBufferSlice)
    (cmab : CMAB) :
  parse version buffer = Ok cmab ->
  exists numAnimations : Z,
    getUint32 buffer 0x38 = Ok numAnimations
    /\ List.length (animEntries cmab) = Z.to_nat numAnimations
    /\ getUint32 buffer 0x24 = Ok (duration cmab)
    /\ loopMode cmab = REPEAT.
Proof.
  unfold parse. intro H. peel H. injection H as <-.
  cbn [animEntries base duration loopMode].
  match goal with
  | Hn : getUint32 buffer (madsChunkOffs + 0x04) = Ok ?n |- _ =>
      exists n; split; [exact Hn |]
  end.
  split.
  - match goal with
    | He : parseEntries _ _ _ _ _ = Ok _ |- _ =>
        exact (parseEntries_length _ _ _ _ _ _ He)
    end.
  - split; [assumption | reflexivity].
Qed.

Lemma parse_wrong_signature (version : Version) (buffer : ArrayBufferSlice) :
  firstn 4 buffer <> tag "cmab" ->
  parse version buffer = Err MalformedData.
Proof.
  intro Hsig. unfold parse.
  destruct (readString buffer 0x00 4) as [magic | e] eqn:Hread; cbn [bind].
  - destruct (String.eqb magic "cmab") eqn:Heq; [| reflexivity].
    exfalso. apply Hsig. apply String.eqb_eq in Heq. subst magic.
    unfold readString in Hread. cbn [slice Z.to_nat skipn] in Hread.
    destruct ((0 <? 0) || negb (Nat.eqb (List.length (firstn 4 buffer)) 4));
      [discriminate Hread |].
    injection Hread as Hread.
    apply (f_equal list_byte_of_string) in Hread.
    rewrite list_byte_of_string_of_list_byte in Hread. exact Hread.
  - f_equal. exact (readString_fails buffer 0x00 4 e Hread).
Qed.

(** C6, as the code has it: [parse] either returns a container, which then
    has the duration read at 0x24, the loop mode Repeat and one entry for
    each of the animations counted at 0x38, or fails with [MalformedData] or
    with [UnsupportedTrackType] and returns no container; a buffer whose
    first four bytes are not "cmab" fails with [MalformedData]. *)
Theorem parse_is_all_or_nothing (version : Version) (buffer : ArrayBufferSlice) :
  ((exists (cmab : CMAB) (numAnimations : Z),
       parse version buffer = Ok cmab
       /\ getUint32 buffer 0x38 = Ok numAnimations
       /\ List.length (animEntries cmab) = Z.to_nat numAnimations
       /\ getUint32 buffer 0x24 = Ok (duration cmab)
       /\ loopMode cmab = REPEAT)
   \/ parse version buffer = Err MalformedData
   \/ parse version buffer = Err UnsupportedTrackType)
  /\ (firstn 4 buffer <> tag "cmab" ->
      parse version buffer = Err MalformedData).
Proof.
  split; [| apply parse_wrong_signature].
  destruct (parse version buffer) as [cmab | e] eqn:Hparse.
  - left. exists cmab.
    destruct (parse_Ok_populated version buffer cmab Hparse) as (n & Hn).
    exists n. split; [reflexivity | exact Hn].
  - right. destruct (parse_fails version buffer e Hparse) as [-> | ->];
      [left | right]; reflexivity.
Qed.

(** A buffer that starts with "cmdl" fails with [MalformedData]. *)
Lemma parse_is_all_or_nothing_witness :
  firstn 4 wrongSignatureBuffer <> tag "cmab"
  /\ parse Ocarina wrongSignatureBuffer = Err MalformedData.
Proof.
  assert (Hsig : firstn 4 wrongSignatureBuffer <> tag "cmab")
    by (intro H; vm_compute in H; discriminate H).
  split.
  - exact Hsig.
  - exact (proj2 (parse_is_all_or_nothing Ocarina wrongSignatureBuffer) Hsig).
Defined.

(** C6 fails for a failure of the other kind: [unsupportedTypeBuffer] has the
    signature and all validated fields of a container, and its parse ends
    with [UnsupportedTrackType], which is neither a container nor
    [MalformedData]. *)
Lemma parse_fails_with_unsupported_track_type :
  firstn 4 unsupportedTypeBuffer = tag "cmab"
  /\ parse Ocarina unsupportedTypeBuffer = Err UnsupportedTrackType
  /\ parse Ocarina unsupportedTypeBuffer <> Err MalformedData
  /\ forall cmab : CMAB, parse Ocarina unsupportedTypeBuffer <> Ok cmab.
Proof.
  assert (H : parse Ocarina unsupportedTypeBuffer = Err UnsupportedTrackType)
    by (vm_compute; reflexivity).
  split; [reflexivity |]. split; [exact H |]. rewrite H.
  split; [discriminate | intros cmab; discriminate].
Qed.

(** * Further properties of the parsers *)

(** ** What a successful read tells *)

Lemma lor_bound (n a b : Z) :
  0 <= a < 2 ^ n -> 0 <= b < 2 ^ n -> 0 <= Z.lor a b < 2 ^ n.
Proof.
  intros Ha Hb.
  assert (Hnn : 0 <= Z.lor a b) by (apply Z.lor_nonneg; lia).
  split; [exact Hnn |].
  destruct (Z.eq_dec (Z.lor a b) 0) as [-> | Hne]; [lia |].
  assert (Hn : 0 < n).
  { destruct (Z.le_gt_cases n 0) as [Hle | Hgt]; [| exact Hgt].
    exfalso. apply Hne.
    assert (2 ^ n <= 1).
    { destruct (Z.eq_dec n 0) as [-> | Hn0]; [cbn; lia |].
      rewrite Z.pow_neg_r by lia. lia. }
    replace a with 0 by lia. replace b with 0 by lia. reflexivity. }
  apply Z.log2_lt_pow2; [lia |].
  rewrite Z.log2_lor by lia.
  apply Z.max_lub_lt.
  - destruct (Z.eq_dec a 0) as [-> | Ha0]; [cbn; lia |].
    apply Z.log2_lt_pow2; lia.
  - destruct (Z.eq_dec b 0) as [-> | Hb0]; [cbn; lia |].
    apply Z.log2_lt_pow2; lia.
Qed.

Lemma shiftl_bound (b k n : Z) :
  0 <= k -> 0 <= b < 256 -> k + 8 <= n -> 0 <= Z.shiftl b k < 2 ^ n.
Proof.
  intros Hk Hb Hn. rewrite Z.shiftl_mul_pow2 by lia.
  assert (0 < 2 ^ k) by (apply Z.pow_pos_nonneg; lia).
  assert (2 ^ (k + 8) <= 2 ^ n) by (apply Z.pow_le_mono_r; lia).
  rewrite Z.pow_add_r in * by lia. change (2 ^ 8) with 256 in *. nia.
Qed.

(** A byte read that succeeds lies inside the buffer and yields a byte. *)
Lemma getUint8_Ok (buffer : ArrayBufferSlice) (offs b : Z) :
  getUint8 buffer offs = Ok b ->
  0 <= offs /\ (Z.to_nat offs < List.length buffer)%nat /\ 0 <= b < 256.
Proof.
  unfold getUint8. destruct (Z.ltb_spec offs 0) as [Hneg | Hpos];
    [discriminate |].
  destruct (nth_error buffer (Z.to_nat offs)) as [x |] eqn:Hnth;
    [| discriminate].
  intro Hb. injection Hb as <-.
  split; [assumption |]. split.
  - apply nth_error_Some. congruence.
  - pose proof (Byte.to_N_bounded x). lia.
Qed.

Lemma getUint16_Ok (buffer : ArrayBufferSlice) (offs u : Z) :
  getUint16 buffer offs = Ok u ->
  0 <= offs /\ (Z.to_nat offs + 2 <= List.length buffer)%nat
  /\ 0 <= u < 2 ^ 16.
Proof.
  unfold getUint16. intro H.
  apply bind_Ok_inv in H. destruct H as (b0 & H0 & H).
  apply bind_Ok_inv in H. destruct H as (b1 & H1 & H).
  injection H as <-.
  apply getUint8_Ok in H0. apply getUint8_Ok in H1.
  split; [tauto |]. split; [lia |].
  apply (lor_bound 16); [lia |]. apply (shiftl_bound b1 8 16); lia.
Qed.

Lemma getUint32_Ok (buffer : ArrayBufferSlice) (offs u : Z) :
  getUint32 buffer offs = Ok u ->
  0 <= offs /\ (Z.to_nat offs + 4 <= List.length buffer)%nat
  /\ 0 <= u < 2 ^ 32.
Proof.
  unfold getUint32. intro H.
  apply bind_Ok_inv in H. destruct H as (b0 & H0 & H).
  apply bind_Ok_inv in H. destruct H as (b1 & H1 & H).
  apply bind_Ok_inv in H. destruct H as (b2 & H2 & H).
  apply bind_Ok_inv in H. destruct H as (b3 & H3 & H).
  injection H as <-.
  apply getUint8_Ok in H0. apply getUint8_Ok in H1.
  apply getUint8_Ok in H2. apply getUint8_Ok in H3.
  split; [tauto |]. split; [lia |].
  apply (lor_bound 32); apply (lor_bound 32).
  - lia.
  - apply (shiftl_bound b1 8 32); lia.
  - apply (shiftl_bound b2 16 32); lia.
  - apply (shiftl_bound b3 24 32); lia.
Qed.

Lemma getFloat32_Ok (buffer : ArrayBufferSlice) (offs : Z) (x : number) :
  getFloat32 buffer offs = Ok x ->
  0 <= offs /\ (Z.to_nat offs + 4 <= List.length buffer)%nat.
Proof.
  unfold getFloat32. intro H.
  apply bind_Ok_inv in H. destruct H as (u & Hu & _).
  apply getUint32_Ok in Hu. tauto.
Qed.

(** A header that reads is complete, and its two fields are the declared
    ones. *)
Lemma readTrackHeader_Ok (version : Version) (buffer : ArrayBufferSlice)
    (type numKeyframes : Z) :
  readTrackHeader version buffer = Ok (type, numKeyframes) ->
  declaredType version buffer = Ok type
  /\ declaredCount version buffer = Ok numKeyframes
  /\ (16 <= List.length buffer)%nat
  /\ 0 <= numKeyframes < 2 ^ 32.
Proof.
  unfold readTrackHeader. intro H. destruct version; peel H;
    injection H as <- <-; cbn [declaredType declaredCount].
  - repeat match goal with
           | Hr : getUint32 _ _ = Ok _ |- _ =>
               pose proof (getUint32_Ok _ _ _ Hr); revert Hr
           end.
    intros. repeat split; try assumption; lia.
  - repeat match goal with
           | Hr : getUint32 _ _ = Ok _ |- _ =>
               pose proof (getUint32_Ok _ _ _ Hr); revert Hr
           | Hr : getUint16 _ _ = Ok _ |- _ =>
               pose proof (getUint16_Ok _ _ _ Hr); revert Hr
           end.
    intros. repeat split; try assumption; lia.
Qed.

(** Closes an equation between closed terms that hold rationals. *)
Ltac concrete :=
  vm_compute;
  repeat match goal with
         | |- Num _ = Num _ => apply Num_eq; reflexivity
         | |- _ => progress f_equal
         end.

(** ** Layout of the keyframes *)

Lemma readKeyframesLinear_layout (buffer : ArrayBufferSlice) :
  forall (n : nat) (idx : Z) (frames : list AnimationKeyframeLinear),
    readKeyframesLinear buffer n idx = Ok frames ->
    List.length frames = n
    /\ forall (i : nat) (k : AnimationKeyframeLinear),
         nth_error frames i = Some k ->
         getUint32 buffer (idx + 0x08 * Z.of_nat i) = Ok (lin_time k)
         /\ getFloat32 buffer (idx + 0x08 * Z.of_nat i + 0x04)
            = Ok (lin_value k).
Proof.
  induction n as [| n IH]; intros idx frames Hread.
  - cbn in Hread. injection Hread as <-. split; [reflexivity |].
    intros i k Hnth. destruct i; discriminate Hnth.
  - cbn [readKeyframesLinear] in Hread.
    apply bind_Ok_inv in Hread. destruct Hread as (t & Ht & Hread).
    apply bind_Ok_inv in Hread. destruct Hread as (v & Hv & Hread).
    apply bind_Ok_inv in Hread. destruct Hread as (rest & Hrest & Hread).
    injection Hread as <-.
    destruct (IH _ _ Hrest) as [Hlen Hlay].
    split; [cbn [List.length]; congruence |].
    intros i k Hnth. destruct i as [| i].
    + cbn in Hnth. injection Hnth as <-. cbn [lin_time lin_value].
      replace (idx + 0x08 * Z.of_nat 0) with (idx + 0x00) by lia.
      replace (idx + 0x00 + 0x04) with (idx + 0x04) by lia.
      split; assumption.
    + cbn in Hnth. destruct (Hlay i k Hnth) as [H1 H2].
      replace (idx + 0x08 * Z.of_nat (S i))
        with (idx + 0x08 + 0x08 * Z.of_nat i) by lia.
      split; assumption.
Qed.

Lemma readKeyframesHermite_layout (buffer : ArrayBufferSlice) :
  forall (n : nat) (idx : Z) (frames : list AnimationKeyframeHermite),
    readKeyframesHermite buffer n idx = Ok frames ->
    List.length frames = n
    /\ forall (i : nat) (k : AnimationKeyframeHermite),
         nth_error frames i = Some k ->
         getUint32 buffer (idx + 0x10 * Z.of_nat i) = Ok (time k)
         /\ getFloat32 buffer (idx + 0x10 * Z.of_nat i + 0x04) = Ok (value k)
         /\ (exists tin : Z,
               getUint32 buffer (idx + 0x10 * Z.of_nat i + 0x08) = Ok tin
               /\ tangentIn k = ofZ tin)
         /\ (exists tout : Z,
               getUint32 buffer (idx + 0x10 * Z.of_nat i + 0x0C) = Ok tout
               /\ tangentOut k = ofZ tout).
Proof.
  induction n as [| n IH]; intros idx frames Hread.
  - cbn in Hread. injection Hread as <-. split; [reflexivity |].
    intros i k Hnth. destruct i; discriminate Hnth.
  - cbn [readKeyframesHermite] in Hread.
    apply bind_Ok_inv in Hread. destruct Hread as (t & Ht & Hread).
    apply bind_Ok_inv in Hread. destruct Hread as (v & Hv & Hread).
    apply bind_Ok_inv in Hread. destruct Hread as (tin & Hin & Hread).
    apply bind_Ok_inv in Hread. destruct Hread as (tout & Hout & Hread).
    apply bind_Ok_inv in Hread. destruct Hread as (rest & Hrest & Hread).
    injection Hread as <-.
    destruct (IH _ _ Hrest) as [Hlen Hlay].
    split; [cbn [List.length]; congruence |].
    intros i k Hnth. destruct i as [| i].
    + cbn in Hnth. injection Hnth as <-.
      cbn [time value tangentIn tangentOut].
      replace (idx + 0x10 * Z.of_nat 0) with (idx + 0x00) by lia.
      replace (idx + 0x00 + 0x04) with (idx + 0x04) by lia.
      replace (idx + 0x00 + 0x08) with (idx + 0x08) by lia.
      replace (idx + 0x00 + 0x0C) with (idx + 0x0C) by lia.
      repeat split; try assumption; eexists; split; try eassumption;
        reflexivity.
    + cbn in Hnth. specialize (Hlay i k Hnth).
      replace (idx + 0x10 * Z.of_nat (S i))
        with (idx + 0x10 + 0x10 * Z.of_nat i) by lia.
      exact Hlay.
Qed.

(** What is left of [parseTrack] once the header is read. *)
Lemma parseTrack_Ok_inv (version : Version) (buffer : ArrayBufferSlice)
    (track : AnimationTrack) :
  parseTrack version buffer = Ok (Some track) ->
  exists type numKeyframes : Z,
    declaredType version buffer = Ok type
    /\ declaredCount version buffer = Ok numKeyframes
    /\ (16 <= List.length buffer)%nat
    /\ 0 < numKeyframes < 2 ^ 32
    /\ ((type = LINEAR
         /\ exists frames,
              track = AnimationTrackLinear frames
              /\ readKeyframesLinear buffer (Z.to_nat numKeyframes) 0x10
                 = Ok frames)
        \/ (type = HERMITE
            /\ exists frames,
                 track = AnimationTrackHermite frames
                 /\ readKeyframesHermite buffer (Z.to_nat numKeyframes) 0x10
                    = Ok frames)).
Proof.
  unfold parseTrack. intro H.
  apply bind_Ok_inv in H. destruct H as ([type n] & Hhdr & H).
  destruct (readTrackHeader_Ok _ _ _ _ Hhdr) as (Ht & Hc & Hlen & Hn).
  exists type, n.
  destruct (Z.eqb_spec n 0); [discriminate H |].
  split; [exact Ht |]. split; [exact Hc |]. split; [exact Hlen |].
  split; [lia |].
  destruct (Z.eqb_spec type LINEAR).
  - left. split; [assumption |].
    apply bind_Ok_inv in H. destruct H as (frames & Hf & H).
    injection H as <-. exists frames. split; [reflexivity | exact Hf].
  - destruct (Z.eqb_spec type HERMITE); [| discriminate H].
    right. split; [assumption |].
    apply bind_Ok_inv in H. destruct H as (frames & Hf & H).
    injection H as <-. exists frames. split; [reflexivity | exact Hf].
Qed.

(** X1: a linear track that [parseTrack] returns comes from a header that
    declares type Linear and as many keyframes as the track has, at least
    one; the buffer holds the header and 8 bytes for each keyframe; and
    keyframe [i] has the time read as an unsigned integer at 0x10 + 8 i and
    the value read as a float four bytes further, in file order. *)
Theorem parseTrack_linear_layout (version : Version)
    (buffer : ArrayBufferSlice) (frames : list AnimationKeyframeLinear) :
  parseTrack version buffer = Ok (Some (AnimationTrackLinear frames)) ->
  declaredType version buffer = Ok LINEAR
  /\ declaredCount version buffer = Ok (Z.of_nat (List.length frames))
  /\ (1 <= List.length frames)%nat
  /\ (16 + 8 * List.length frames <= List.length buffer)%nat
  /\ forall (i : nat) (k : AnimationKeyframeLinear),
       nth_error frames i = Some k ->
       getUint32 buffer (0x10 + 0x08 * Z.of_nat i) = Ok (lin_time k)
       /\ getFloat32 buffer (0x10 + 0x08 * Z.of_nat i + 0x04)
          = Ok (lin_value k).
Proof.
  intro H.
  destruct (parseTrack_Ok_inv _ _ _ H)
    as (type & n & Ht & Hc & Hlen & Hn & [(-> & fs & Heq & Hf)
                                         | (_ & fs & Heq & _)]);
    [| discriminate Heq].
  injection Heq as <-.
  destruct (readKeyframesLinear_layout _ _ _ _ Hf) as [Hl Hlay].
  assert (Hcount : n = Z.of_nat (List.length frames)) by lia.
  split; [exact Ht |]. split; [congruence |]. split; [lia |].
  split; [| exact Hlay].
  destruct (nth_error frames (List.length frames - 1)) as [k |] eqn:Hlast.
  - destruct (Hlay _ _ Hlast) as [_ Hv]. apply getFloat32_Ok in Hv. lia.
  - apply nth_error_None in Hlast. lia.
Qed.

Lemma parseTrack_linear_layout_witness :
  parseTrack Ocarina linearTrackBuffer
  = Ok (Some (AnimationTrackLinear
                [ {| lin_time := 5; lin_value := ofZ 1 |};
                  {| lin_time := 10; lin_value := ofZ 2 |} ]))
  /\ declaredCount Ocarina linearTrackBuffer = Ok 2
  /\ (16 + 8 * 2 <= List.length linearTrackBuffer)%nat.
Proof.
  assert (H : parseTrack Ocarina linearTrackBuffer
              = Ok (Some (AnimationTrackLinear
                            [ {| lin_time := 5; lin_value := ofZ 1 |};
                              {| lin_time := 10; lin_value := ofZ 2 |} ])))
    by concrete.
  split; [exact H |].
  pose proof (parseTrack_linear_layout Ocarina linearTrackBuffer _ H) as Hl.
  split; [apply Hl | apply Hl].
Defined.

(** X2: a Hermite track that [parseTrack] returns comes from a header that
    declares type Hermite and as many keyframes as the track has, at least
    one; the buffer holds the header and 16 bytes for each keyframe; and
    keyframe [i] has the time read as an unsigned integer at 0x10 + 16 i, the
    value read as a float at offset 4 of the keyframe, and as tangents the
    unsigned integers read at its offsets 8 and 12. *)
Theorem parseTrack_hermite_layout (version : Version)
    (buffer : ArrayBufferSlice) (frames : list AnimationKeyframeHermite) :
  parseTrack version buffer = Ok (Some (AnimationTrackHermite frames)) ->
  declaredType version buffer = Ok HERMITE
  /\ declaredCount version buffer = Ok (Z.of_nat (List.length frames))
  /\ (1 <= List.length frames)%nat
  /\ (16 + 16 * List.length frames <= List.length buffer)%nat
  /\ forall (i : nat) (k : AnimationKeyframeHermite),
       nth_error frames i = Some k ->
       getUint32 buffer (0x10 + 0x10 * Z.of_nat i) = Ok (time k)
       /\ getFloat32 buffer (0x10 + 0x10 * Z.of_nat i + 0x04) = Ok (value k)
       /\ (exists tin : Z,
             getUint32 buffer (0x10 + 0x10 * Z.of_nat i + 0x08) = Ok tin
             /\ tangentIn k = ofZ tin)
       /\ (exists tout : Z,
             getUint32 buffer (0x10 + 0x10 * Z.of_nat i + 0x0C) = Ok tout
             /\ tangentOut k = ofZ tout).
Proof.
  intro H.
  destruct (parseTrack_Ok_inv _ _ _ H)
    as (type & n & Ht & Hc & Hlen & Hn & [(_ & fs & Heq & _)
                                         | (-> & fs & Heq & Hf)]);
    [discriminate Heq |].
  injection Heq as <-.
  destruct (readKeyframesHermite_layout _ _ _ _ Hf) as [Hl Hlay].
  assert (Hcount : n = Z.of_nat (List.length frames)) by lia.
  split; [exact Ht |]. split; [congruence |]. split; [lia |].
  split; [| exact Hlay].
  destruct (nth_error frames (List.length frames - 1)) as [k |] eqn:Hlast.
  - destruct (Hlay _ _ Hlast) as (_ & _ & _ & tout & Hout & _).
    apply getUint32_Ok in Hout. lia.
  - apply nth_error_None in Hlast. lia.
Qed.

Lemma parseTrack_hermite_layout_witness :
  parseTrack Ocarina twoHermiteKeyframes
  = Ok (Some (AnimationTrackHermite
                [ {| time := 0; value := ofZ 1;
                     tangentIn := ofZ 0; tangentOut := ofZ 3 |};
                  {| time := 8; value := ofZ 2;
                     tangentIn := ofZ 3; tangentOut := ofZ 0 |} ]))
  /\ declaredCount Ocarina twoHermiteKeyframes = Ok 2
  /\ (16 + 16 * 2 <= List.length twoHermiteKeyframes)%nat.
Proof.
  assert (H : parseTrack Ocarina twoHermiteKeyframes
              = Ok (Some (AnimationTrackHermite
                            [ {| time := 0; value := ofZ 1;
                                 tangentIn := ofZ 0; tangentOut := ofZ 3 |};
                              {| time := 8; value := ofZ 2;
                                 tangentIn := ofZ 3; tangentOut := ofZ 0 |} ])))
    by concrete.
  split; [exact H |].
  pose proof (parseTrack_hermite_layout Ocarina twoHermiteKeyframes _ H) as Hl.
  split; [apply Hl | apply Hl].
Defined.

(** ** When a track parses *)

Lemma readKeyframesLinear_in_bounds (buffer : ArrayBufferSlice) :
  forall (n : nat) (idx : Z),
    0 <= idx ->
    (Z.to_nat idx + 8 * n <= List.length buffer)%nat ->
    exists frames, readKeyframesLinear buffer n idx = Ok frames.
Proof.
  induction n as [| n IH]; intros idx Hidx Hlen; cbn [readKeyframesLinear].
  - eexists. reflexivity.
  - destruct (getUint32_in_bounds buffer (idx + 0x00)) as [t ->]; [lia | lia |].
    destruct (getFloat32_in_bounds buffer (idx + 0x04)) as [v ->];
      [lia | lia |].
    destruct (IH (idx + 0x08)) as [rest ->]; [lia | lia |].
    eexists. reflexivity.
Qed.

Lemma readKeyframesHermite_in_bounds (buffer : ArrayBufferSlice) :
  forall (n : nat) (idx : Z),
    0 <= idx ->
    (Z.to_nat idx + 16 * n <= List.length buffer)%nat ->
    exists frames, readKeyframesHermite buffer n idx = Ok frames.
Proof.
  induction n as [| n IH]; intros idx Hidx Hlen; cbn [readKeyframesHermite].
  - eexists. reflexivity.
  - destruct (getUint32_in_bounds buffer (idx + 0x00)) as [t ->]; [lia | lia |].
    destruct (getFloat32_in_bounds buffer (idx + 0x04)) as [v ->];
      [lia | lia |].
    destruct (getUint32_in_bounds buffer (idx + 0x08)) as [tin ->];
      [lia | lia |].
    destruct (getUint32_in_bounds buffer (idx + 0x0C)) as [tout ->];
      [lia | lia |].
    destruct (IH (idx + 0x10)) as [rest ->]; [lia | lia |].
    eexists. reflexivity.
Qed.

(** X3: a buffer that declares type Linear or Hermite and a keyframe count
    that is not zero, and that holds the 16 bytes of the header and all the
    keyframes declared (8 bytes each for Linear, 16 for Hermite), parses: the
    track returned has the declared number of keyframes. *)
Theorem parseTrack_succeeds_when_keyframes_fit (version : Version)
    (buffer : ArrayBufferSlice) (type numKeyframes : Z) :
  declaredType version buffer = Ok type ->
  declaredCount version buffer = Ok numKeyframes ->
  type = LINEAR \/ type = HERMITE ->
  numKeyframes <> 0 ->
  (16 + keyframeSize type * Z.to_nat numKeyframes <= List.length buffer)%nat ->
  exists track : AnimationTrack,
    parseTrack version buffer = Ok (Some track)
    /\ List.length (trackTimes track) = Z.to_nat numKeyframes.
Proof.
  intros Ht Hc Htype Hn Hlen. unfold parseTrack.
  rewrite (readTrackHeader_complete version buffer type numKeyframes);
    [| lia | exact Ht | exact Hc].
  cbn [bind]. destruct (Z.eqb_spec numKeyframes 0); [contradiction |].
  destruct Htype as [-> | ->].
  - change (keyframeSize LINEAR) with 8%nat in Hlen.
    change (LINEAR =? LINEAR) with true. cbn match.
    destruct (readKeyframesLinear_in_bounds buffer (Z.to_nat numKeyframes) 0x10)
      as [frames Hf]; [lia | change (Z.to_nat 0x10) with 16%nat; lia |].
    rewrite Hf. eexists. split; [reflexivity |].
    cbn [trackTimes]. rewrite length_map.
    exact (proj1 (readKeyframesLinear_layout _ _ _ _ Hf)).
  - change (keyframeSize HERMITE) with 16%nat in Hlen.
    change (HERMITE =? LINEAR) with false.
    change (HERMITE =? HERMITE) with true. cbn match.
    destruct (readKeyframesHermite_in_bounds buffer (Z.to_nat numKeyframes) 0x10)
      as [frames Hf]; [lia | change (Z.to_nat 0x10) with 16%nat; lia |].
    rewrite Hf. eexists. split; [reflexivity |].
    cbn [trackTimes]. rewrite length_map.
    exact (proj1 (readKeyframesHermite_layout _ _ _ _ Hf)).
Qed.

Lemma parseTrack_succeeds_when_keyframes_fit_witness :
  exists track : AnimationTrack,
    parseTrack Ocarina twoHermiteKeyframes = Ok (Some track)
    /\ List.length (trackTimes track) = 2%nat.
Proof.
  apply (parseTrack_succeeds_when_keyframes_fit Ocarina twoHermiteKeyframes
           HERMITE 2).
  - reflexivity.
  - reflexivity.
  - right. reflexivity.
  - discriminate.
  - cbn. lia.
Defined.

Lemma readTrackHeader_fails (version : Version) (buffer : ArrayBufferSlice) :
  onlyFails isMalformedData (readTrackHeader version buffer).
Proof.
  unfold readTrackHeader. repeat fails_step; auto with reads.
Qed.

(** X4: in either layout, a track buffer shorter than the 16 bytes of a
    header fails with [MalformedData], whatever it declares. *)
Theorem parseTrack_truncated_header (version : Version)
    (buffer : ArrayBufferSlice) :
  (List.length buffer < 16)%nat ->
  parseTrack version buffer = Err MalformedData.
Proof.
  intro Hlen. unfold parseTrack.
  destruct (readTrackHeader version buffer) as [[type n] | e] eqn:Hhdr.
  - apply readTrackHeader_Ok in Hhdr. lia.
  - cbn [bind]. f_equal. exact (readTrackHeader_fails version buffer e Hhdr).
Qed.

Lemma parseTrack_truncated_header_witness :
  parseTrack Majora (firstn 12 emptyTypeThreeMajora) = Err MalformedData.
Proof.
  apply parseTrack_truncated_header. cbn. lia.
Defined.

(** ** Slots of an entry *)

Lemma trackAt_arraySet (tracks : TrackArray) :
  forall (i j : nat) (t : option AnimationTrack),
    trackAt (arraySet tracks i t) j
    = if Nat.eqb j i then t else trackAt tracks j.
Proof.
  induction tracks as [| x rest IH]; intros i j t.
  - revert j. induction i as [| i IHi]; intro j.
    + destruct j as [| [| j]]; reflexivity.
    + destruct j as [| j]; [reflexivity |].
      cbn [arraySet]. unfold trackAt in *. cbn [nth_error Nat.eqb].
      rewrite IHi. destruct (Nat.eqb j i); [reflexivity |].
      destruct j; reflexivity.
  - destruct i as [| i]; destruct j as [| j]; try reflexivity.
    cbn [arraySet]. unfold trackAt in *. cbn [nth_error Nat.eqb]. apply IH.
Qed.

Lemma length_arraySet (tracks : TrackArray) :
  forall (i : nat) (t : option AnimationTrack),
    List.length (arraySet tracks i t) = Nat.max (List.length tracks) (S i).
Proof.
  induction tracks as [| x rest IH]; intros i t.
  - induction i as [| i IHi]; [reflexivity |].
    cbn [arraySet List.length] in *. rewrite IHi. reflexivity.
  - destruct i as [| i]; cbn [arraySet List.length].
    + lia.
    + rewrite IH. lia.
Qed.

(** What one slot loop does to the array: slots before the loop counter and
    behind the loop are left alone; a slot of the loop is left alone when its
    offset is zero and receives the track parsed at its offset otherwise. *)
Lemma parseTrackSlots_Ok (version : Version) (buffer : ArrayBufferSlice) :
  forall (n i : nat) (idx : Z) (tracks tracks' : TrackArray),
    parseTrackSlots version buffer n i idx tracks = Ok tracks' ->
    (List.length tracks' <= Nat.max (List.length tracks) (i + n))%nat
    /\ (forall j, (j < i \/ i + n <= j)%nat ->
                  trackAt tracks' j = trackAt tracks j)
    /\ forall j, (i <= j < i + n)%nat ->
         exists offs : Z,
           getUint16 buffer (idx + 0x02 * Z.of_nat (j - i)) = Ok offs
           /\ ((offs = 0 /\ trackAt tracks' j = trackAt tracks j)
               \/ (offs <> 0
                   /\ parseTrack version (slice buffer offs)
                      = Ok (trackAt tracks' j))).
Proof.
  induction n as [| n IH]; intros i idx tracks tracks' H;
    cbn [parseTrackSlots] in H.
  - injection H as <-. split; [lia |]. split; [reflexivity |].
    intros j Hj. lia.
  - apply bind_Ok_inv in H. destruct H as (offs & Hoffs & H).
    destruct (Z.eqb_spec offs 0) as [-> | Hne].
    + destruct (IH _ _ _ _ H) as (Hlen & Hout & Hin).
      split; [lia |]. split.
      * intros j Hj. apply Hout. lia.
      * intros j Hj. destruct (Nat.eq_dec j i) as [-> | Hji].
        -- exists 0. rewrite Nat.sub_diag.
           replace (idx + 0x02 * Z.of_nat 0) with idx by lia.
           split; [exact Hoffs |]. left. split; [reflexivity |].
           apply Hout. lia.
        -- destruct (Hin j) as (o & Ho & Hcase); [lia |].
           exists o.
           replace (idx + 0x02 * Z.of_nat (j - i))
             with (idx + 0x02 + 0x02 * Z.of_nat (j - S i)) by lia.
           split; [exact Ho | exact Hcase].
    + apply bind_Ok_inv in H. destruct H as (t & Ht & H).
      destruct (IH _ _ _ _ H) as (Hlen & Hout & Hin).
      rewrite length_arraySet in Hlen.
      split; [lia |]. split.
      * intros j Hj. rewrite Hout by lia. rewrite trackAt_arraySet.
        destruct (Nat.eqb_spec j i); [lia | reflexivity].
      * intros j Hj. destruct (Nat.eq_dec j i) as [-> | Hji].
        -- exists offs. rewrite Nat.sub_diag.
           replace (idx + 0x02 * Z.of_nat 0) with idx by lia.
           split; [exact Hoffs |]. right. split; [exact Hne |].
           rewrite Hout by lia. rewrite trackAt_arraySet, Nat.eqb_refl.
           exact Ht.
        -- destruct (Hin j) as (o & Ho & Hcase); [lia |].
           exists o.
           replace (idx + 0x02 * Z.of_nat (j - i))
             with (idx + 0x02 + 0x02 * Z.of_nat (j - S i)) by lia.
           split; [exact Ho |].
           rewrite trackAt_arraySet in Hcase.
           destruct (Nat.eqb_spec j i); [lia | exact Hcase].
Qed.

(** X5: an entry that [parseMmad] returns has the three header fields read at
    0x04, 0x08 and 0x0C, and at most as many tracks as its animation type has
    slots (two for a translation, four for type 4, one for a rotation, none
    for any other type); slot [j] is absent when the 16-bit offset at
    0x10 + 2 j is zero, and otherwise holds what [parseTrack] returns for the
    buffer that starts at that offset from the start of the entry. *)
Theorem parseMmad_slots (version : Version) (buffer : ArrayBufferSlice)
    (entry : AnimationEntry) :
  parseMmad version buffer = Ok entry ->
  getUint32 buffer 0x04 = Ok (animationType entry)
  /\ getUint32 buffer 0x08 = Ok (materialIndex entry)
  /\ getUint32 buffer 0x0C = Ok (channelIndex entry)
  /\ (List.length (tracks entry) <= slotCount (animationType entry))%nat
  /\ forall j : nat,
       (j < slotCount (animationType entry))%nat ->
       exists offs : Z,
         getUint16 buffer (0x10 + 0x02 * Z.of_nat j) = Ok offs
         /\ ((offs = 0 /\ trackAt (tracks entry) j = None)
             \/ (offs <> 0
                 /\ parseTrack version (slice buffer offs)
                    = Ok (trackAt (tracks entry) j))).
Proof.
  unfold parseMmad. intro H. peel H. injection H as <-.
  cbn [animationType materialIndex channelIndex tracks].
  match goal with
  | Hs : parseTrackSlots _ _ _ _ _ _ = Ok _ |- _ =>
      destruct (parseTrackSlots_Ok _ _ _ _ _ _ _ Hs) as (Hlen & _ & Hin)
  end.
  split; [assumption |]. split; [assumption |]. split; [assumption |].
  split; [cbn in Hlen; lia |].
  intros j Hj. destruct (Hin j) as (offs & Ho & Hcase); [lia |].
  exists offs. rewrite Nat.sub_0_r in Ho. split; [exact Ho |].
  destruct Hcase as [(-> & Hsame) | Hparsed].
  - left. split; [reflexivity |]. rewrite Hsame. destruct j; reflexivity.
  - right. exact Hparsed.
Qed.

Lemma parseMmad_slots_witness :
  exists entry : AnimationEntry,
    parseMmad Ocarina mmadBuffer = Ok entry
    /\ animationType entry = TRANSLATION
    /\ (List.length (tracks entry) <= 2)%nat
    /\ parseTrack Ocarina (slice mmadBuffer 0x14) = Ok (trackAt (tracks entry) 0)
    /\ trackAt (tracks entry) 1 = None.
Proof.
  assert (Hp : { entry | parseMmad Ocarina mmadBuffer = Ok entry })
    by (eexists; vm_compute; reflexivity).
  destruct Hp as [entry Hp]. exists entry.
  destruct (parseMmad_slots Ocarina mmadBuffer entry Hp)
    as (Htype & _ & _ & Hlen & Hslots).
  assert (Ht : animationType entry = TRANSLATION).
  { assert (H4 : getUint32 mmadBuffer 0x04 = Ok TRANSLATION) by reflexivity.
    congruence. }
  rewrite Ht in Hlen, Hslots.
  split; [exact Hp |]. split; [exact Ht |]. split; [exact Hlen |].
  split.
  - destruct (Hslots 0%nat) as (offs & Ho & [(-> & _) | (_ & Hparsed)]);
      [cbn; lia | discriminate Ho |].
    assert (H0 : getUint16 mmadBuffer 0x10 = Ok 0x14) by reflexivity.
    change (0x10 + 0x02 * Z.of_nat 0) with 0x10 in Ho.
    replace offs with 0x14 in Hparsed by congruence. exact Hparsed.
  - destruct (Hslots 1%nat) as (offs & Ho & [(_ & Hnone) | (Hne & _)]);
      [cbn; lia | exact Hnone |].
    assert (H1 : getUint16 mmadBuffer 0x12 = Ok 0) by reflexivity.
    change (0x10 + 0x02 * Z.of_nat 1) with 0x12 in Ho. congruence.
Defined.

(** ** Signatures and validated fields *)

(** A tag that reads and compares equal to [s] is the four bytes found at
    the offset. *)
Lemma readString_tag (buffer : ArrayBufferSlice) (offs : Z) (magic s : string) :
  readString buffer offs 4 = Ok magic ->
  String.eqb magic s = true ->
  0 <= offs /\ firstn 4 (slice buffer offs) = tag s.
Proof.
  unfold readString. intros Hread Heq.
  destruct (Z.ltb_spec offs 0) as [Hneg | Hpos]; cbn [orb] in Hread;
    [discriminate Hread |].
  destruct (negb (Nat.eqb (List.length (firstn 4 (slice buffer offs))) 4));
    [discriminate Hread |].
  injection Hread as Hread. apply String.eqb_eq in Heq. subst s.
  split; [exact Hpos |]. unfold tag. rewrite <- Hread.
  symmetry. apply list_byte_of_string_of_list_byte.
Qed.

Lemma assert_Ok (c : bool) (u : unit) : assert c = Ok u -> c = true.
Proof. destruct c; [reflexivity | discriminate]. Qed.

(** A parser that starts by checking a signature fails with [MalformedData]
    on a buffer with other first bytes. *)
Lemma signature_mismatch {A : Type} (buffer : ArrayBufferSlice) (s : string)
    (k : unit -> result A) :
  firstn 4 buffer <> tag s ->
  (magic <- readString buffer 0x00 4 ;;
   u <- assert (String.eqb magic s) ;; k u) = Err MalformedData.
Proof.
  intro Hsig.
  destruct (readString buffer 0x00 4) as [magic | e] eqn:Hread; cbn [bind].
  - destruct (String.eqb magic s) eqn:Heq; [| reflexivity].
    exfalso. apply Hsig.
    exact (proj2 (readString_tag buffer 0x00 magic s Hread Heq)).
  - f_equal. exact (readString_fails buffer 0x00 4 e Hread).
Qed.

(** X6: an entry buffer whose first four bytes are not "mmad" fails with
    [MalformedData], in either format version. *)
Theorem parseMmad_wrong_signature (version : Version)
    (buffer : ArrayBufferSlice) :
  firstn 4 buffer <> tag "mmad" ->
  parseMmad version buffer = Err MalformedData.
Proof.
  intro Hsig. unfold parseMmad. apply signature_mismatch. exact Hsig.
Qed.

Lemma parseMmad_wrong_signature_witness :
  parseMmad Majora linearTrackBuffer = Err MalformedData.
Proof.
  apply parseMmad_wrong_signature.
  intro H. vm_compute in H. discriminate H.
Defined.

Lemma parseEntries_nth (version : Version) (buffer : ArrayBufferSlice)
    (chunk : Z) :
  forall (n : nat) (idx : Z) (entries : list AnimationEntry),
    parseEntries version buffer chunk n idx = Ok entries ->
    forall (i : nat) (entry : AnimationEntry),
      nth_error entries i = Some entry ->
      exists offs : Z,
        getUint32 buffer (idx + 0x04 * Z.of_nat i) = Ok offs
        /\ parseMmad version (slice buffer (chunk + offs)) = Ok entry.
Proof.
  induction n as [| n IH]; intros idx entries H i entry Hnth;
    cbn [parseEntries] in H.
  - injection H as <-. destruct i; discriminate Hnth.
  - apply bind_Ok_inv in H. destruct H as (offs & Hoffs & H).
    apply bind_Ok_inv in H. destruct H as (e & He & H).
    apply bind_Ok_inv in H. destruct H as (rest & Hrest & H).
    injection H as <-. destruct i as [| i].
    + cbn in Hnth. injection Hnth as <-. exists offs.
      replace (idx + 0x04 * Z.of_nat 0) with (idx + 0x00) by lia.
      split; assumption.
    + cbn in Hnth. destruct (IH _ _ Hrest i entry Hnth) as (o & Ho & Hp).
      exists o.
      replace (idx + 0x04 * Z.of_nat (S i))
        with (idx + 0x04 + 0x04 * Z.of_nat i) by lia.
      split; assumption.
Qed.

(** X7: the entries of a container that [parse] returns are in the order of
    the offset table: entry [i] is what [parseMmad] returns for the buffer
    that starts at 0x34 plus the 32-bit offset found at 0x3C + 4 i. *)
Theorem parse_entries_follow_offset_table (version : Version)
    (buffer : ArrayBufferSlice) (cmab : CMAB) (i : nat)
    (entry : AnimationEntry) :
  parse version buffer = Ok cmab ->
  nth_error (animEntries cmab) i = Some entry ->
  exists offs : Z,
    getUint32 buffer (0x3C + 0x04 * Z.of_nat i) = Ok offs
    /\ parseMmad version (slice buffer (0x34 + offs)) = Ok entry.
Proof.
  unfold parse. intros H Hnth. peel H. injection H as <-.
  cbn [animEntries] in Hnth.
  match goal with
  | He : parseEntries _ _ _ _ _ = Ok _ |- _ =>
      exact (parseEntries_nth _ _ _ _ _ _ He i entry Hnth)
  end.
Qed.

Lemma parse_entries_follow_offset_table_witness :
  exists (cmab : CMAB) (entry : AnimationEntry),
    parse Ocarina lateStartBuffer = Ok cmab
    /\ nth_error (animEntries cmab) 0 = Some entry
    /\ parseMmad Ocarina (slice lateStartBuffer 0x40) = Ok entry.
Proof.
  assert (Hp : { cmab | parse Ocarina lateStartBuffer = Ok cmab })
    by (eexists; vm_compute; reflexivity).
  destruct Hp as [cmab Hp].
  assert (He : { entry | nth_error (animEntries cmab) 0 = Some entry }).
  { destruct (nth_error (animEntries cmab) 0) as [entry |] eqn:Hnth.
    - exists entry. reflexivity.
    - exfalso. apply nth_error_None in Hnth.
      destruct (parse_Ok_populated _ _ _ Hp) as (n & Hn & Hlen & _).
      assert (H38 : getUint32 lateStartBuffer 0x38 = Ok 1) by reflexivity.
      rewrite H38 in Hn. injection Hn as <-. rewrite Hlen in Hnth.
      cbn in Hnth. lia. }
  destruct He as [entry He]. exists cmab, entry.
  split; [exact Hp |]. split; [exact He |].
  destruct (parse_entries_follow_offset_table Ocarina lateStartBuffer cmab 0
              entry Hp He) as (offs & Ho & Hparsed).
  assert (H3C : getUint32 lateStartBuffer 0x3C = Ok 0x0C) by reflexivity.
  change (0x3C + 0x04 * Z.of_nat 0) with 0x3C in Ho.
  rewrite H3C in Ho. injection Ho as <-. exact Hparsed.
Defined.

(** X8: a buffer that [parse] accepts starts with "cmab", has the value 1 at
    0x04, 0 at 0x0C, 1 at 0x10, 0x20 at 0x14, 0xFFFFFFFF at 0x20 and 0x14 at
    0x2C, carries "strt" at the offset stored at 0x18 and "mads" at 0x34. *)
Theorem parse_validates_header (version : Version) (buffer : ArrayBufferSlice)
    (cmab : CMAB) :
  parse version buffer = Ok cmab ->
  firstn 4 buffer = tag "cmab"
  /\ getUint32 buffer 0x04 = Ok 0x01
  /\ getUint32 buffer 0x0C = Ok 0x00
  /\ getUint32 buffer 0x10 = Ok 0x01
  /\ getUint32 buffer 0x14 = Ok 0x20
  /\ (exists strTableChunkOffs : Z,
        getUint32 buffer 0x18 = Ok strTableChunkOffs
        /\ firstn 4 (slice buffer strTableChunkOffs) = tag "strt")
  /\ getUint32 buffer 0x20 = Ok 0xFFFFFFFF
  /\ getUint32 buffer 0x2C = Ok 0x14
  /\ firstn 4 (slice buffer 0x34) = tag "mads".
Proof.
  unfold parse. intro H. peel H. clear H.
  repeat match goal with
         | Ha : assert (_ =? _) = Ok _ |- _ =>
             apply assert_Ok, Z.eqb_eq in Ha; subst
         | Ha : assert (String.eqb _ _) = Ok _ |- _ => apply assert_Ok in Ha
         end.
  repeat match goal with
         | Hr : readString _ _ 4 = Ok ?m, He : String.eqb ?m _ = true |- _ =>
             pose proof (proj2 (readString_tag _ _ _ _ Hr He)); clear Hr He
         end.
  repeat split; try assumption.
  eexists. split; eassumption.
Qed.

Lemma parse_validates_header_witness :
  firstn 4 lateStartBuffer = tag "cmab"
  /\ getUint32 lateStartBuffer 0x2C = Ok 0x14
  /\ firstn 4 (slice lateStartBuffer 0x34) = tag "mads".
Proof.
  assert (Hp : { cmab | parse Ocarina lateStartBuffer = Ok cmab })
    by (eexists; vm_compute; reflexivity).
  destruct Hp as [cmab Hp].
  pose proof (parse_validates_header Ocarina lateStartBuffer cmab Hp) as Hv.
  split; [apply Hv |]. split; apply Hv.
Defined.

(** Steps over one read or check at the head of a parser that is bound to
    fail with [MalformedData]. *)
Ltac step_read :=
  cbv zeta;
  lazymatch goal with
  | |- bind ?r _ = Err MalformedData =>
      let Hr := fresh "Hr" in
      destruct r eqn:Hr; cbn [bind];
      [| f_equal;
         first [ exact (getUint32_fails _ _ _ Hr)
               | exact (readString_fails _ _ _ _ Hr)
               | exact (assert_fails _ _ Hr) ] ]
  end.

(** X9: a buffer shorter than 0x3C bytes, the fixed part of a container up
    to the animation count, fails with [MalformedData]. *)
Theorem parse_truncated_container (version : Version)
    (buffer : ArrayBufferSlice) :
  (List.length buffer < 0x3C)%nat ->
  parse version buffer = Err MalformedData.
Proof.
  intro Hlen. unfold parse. repeat step_read.
  match goal with
  | Hr : getUint32 buffer (madsChunkOffs + 0x04) = Ok _ |- _ =>
      apply getUint32_Ok in Hr; unfold madsChunkOffs in Hr; cbn in Hr; lia
  end.
Qed.

Lemma parse_truncated_container_witness :
  parse Ocarina (firstn 0x38 lateStartBuffer) = Err MalformedData.
Proof.
  apply parse_truncated_container. cbn. lia.
Defined.

(** * Further properties of the sampler *)

(** ** Past the last keyframe *)

Lemma findIndex_none {A : Type} (p : A -> bool) (l : list A) :
  (forall (j : nat) (x : A), nth_error l j = Some x -> p x = false) ->
  findIndex p l = -1.
Proof.
  induction l as [| h l IH]; intro Hall; cbn [findIndex].
  - reflexivity.
  - rewrite (Hall 0%nat h eq_refl).
    rewrite IH; [reflexivity |].
    intros j x Hj. exact (Hall (S j) x Hj).
Qed.

Lemma findIndex_past_last {A : Type} (tm : A -> Z) (frames : list A)
    (klast : A) (frame : number) :
  strictlyIncreasing (map tm frames) = true ->
  nth_error frames (List.length frames - 1) = Some klast ->
  nge frame (ofZ (tm klast)) = true ->
  findIndex (fun key => nlt frame (ofZ (tm key))) frames = -1.
Proof.
  intros Hs Hlast Hge. apply findIndex_none. intros j x Hj.
  apply (nlt_false_before frame (tm klast)); [exact Hge |].
  assert (Hjlt : (j < List.length frames)%nat)
    by (apply nth_error_Some; congruence).
  destruct (Nat.eq_dec j (List.length frames - 1)) as [-> | Hne].
  - rewrite Hlast in Hj. injection Hj as <-. lia.
  - apply Z.lt_le_incl.
    apply (strictlyIncreasing_nth (map tm frames) j (List.length frames - 1));
      try assumption; try lia.
    + rewrite nth_error_map, Hj. reflexivity.
    + rewrite nth_error_map, Hlast. reflexivity.
Qed.

Lemma sampleAnimationTrackLinear_past_last
    (frames : list AnimationKeyframeLinear) (klast : AnimationKeyframeLinear)
    (frame : number) :
  strictlyIncreasing (map lin_time frames) = true ->
  nth_error frames (List.length frames - 1) = Some klast ->
  nge frame (ofZ (lin_time klast)) = true ->
  sampleAnimationTrackLinear frames frame = Ok (lin_value klast).
Proof.
  intros Hs Hlast Hge. unfold sampleAnimationTrackLinear.
  destruct (Nat.eqb_spec (List.length frames) 1) as [H1 | H1].
  - rewrite H1 in Hlast. change (1 - 1)%nat with 0%nat in Hlast.
    change 0 with (Z.of_nat 0). rewrite arrayGet_of_nat, Hlast. reflexivity.
  - rewrite (findIndex_past_last lin_time frames klast frame Hs Hlast Hge).
    cbn [Z.ltb Z.compare].
    assert (Hpos : (0 < List.length frames)%nat).
    { destruct frames; [discriminate Hlast | cbn; lia]. }
    replace (Z.of_nat (List.length frames) - 1)
      with (Z.of_nat (List.length frames - 1)) by lia.
    rewrite arrayGet_of_nat, Hlast. reflexivity.
Qed.

Lemma sampleAnimationTrackHermite_past_last
    (frames : list AnimationKeyframeHermite) (klast : AnimationKeyframeHermite)
    (frame : number) :
  strictlyIncreasing (map time frames) = true ->
  nth_error frames (List.length frames - 1) = Some klast ->
  nge frame (ofZ (time klast)) = true ->
  sampleAnimationTrackHermite frames frame = Ok (value klast).
Proof.
  intros Hs Hlast Hge. unfold sampleAnimationTrackHermite.
  destruct (Nat.eqb_spec (List.length frames) 1) as [H1 | H1].
  - rewrite H1 in Hlast. change (1 - 1)%nat with 0%nat in Hlast.
    change 0 with (Z.of_nat 0). rewrite arrayGet_of_nat, Hlast. reflexivity.
  - rewrite (findIndex_past_last time frames klast frame Hs Hlast Hge).
    cbn [Z.ltb Z.compare].
    assert (Hpos : (0 < List.length frames)%nat).
    { destruct frames; [discriminate Hlast | cbn; lia]. }
    replace (Z.of_nat (List.length frames) - 1)
      with (Z.of_nat (List.length frames - 1)) by lia.
    rewrite arrayGet_of_nat, Hlast. reflexivity.
Qed.

(** X10: a track with increasing keyframe times, sampled at a frame at or
    past the time of its last keyframe, returns the value of that keyframe:
    the curve is held, not extrapolated. *)
Theorem sample_holds_last_keyframe (track : AnimationTrack) (frame : number)
    (tlast : Z) (vlast : number) :
  strictlyIncreasing (trackTimes track) = true ->
  nth_error (trackTimes track) (List.length (trackTimes track) - 1)
  = Some tlast ->
  nth_error (trackValues track) (List.length (trackTimes track) - 1)
  = Some vlast ->
  nge frame (ofZ tlast) = true ->
  sampleAnimationTrack track frame = Ok vlast.
Proof.
  intros Hs Ht Hv Hge.
  destruct track as [frames | frames];
    cbn [trackTimes trackValues sampleAnimationTrack] in *;
    rewrite length_map in *; rewrite nth_error_map in Ht, Hv;
    destruct (nth_error frames (List.length frames - 1)) as [klast |] eqn:Hlast;
    try discriminate Ht; cbn in Ht, Hv;
    injection Ht as <-; injection Hv as <-.
  - exact (sampleAnimationTrackLinear_past_last frames klast frame Hs Hlast Hge).
  - exact (sampleAnimationTrackHermite_past_last frames klast frame Hs Hlast Hge).
Qed.

Lemma sample_holds_last_keyframe_witness :
  sampleAnimationTrack rampTrack (ofZ 12) = Ok (ofZ 10)
  /\ sampleAnimationTrack rampTrack PosInfinity = Ok (ofZ 10).
Proof.
  split.
  - apply (sample_holds_last_keyframe rampTrack (ofZ 12) 10 (ofZ 10));
      reflexivity.
  - apply (sample_holds_last_keyframe rampTrack PosInfinity 10 (ofZ 10));
      reflexivity.
Defined.

(** ** At the keyframes *)

Lemma nge_refl_ofZ (t : Z) : nge (ofZ t) (ofZ t) = true.
Proof.
  unfold nge. cbn [neqb ofZ].
  rewrite (proj2 (Qceqb_true _ _) eq_refl). apply orb_true_r.
Qed.

Lemma nlt_ofZ (x y : Z) : x < y -> nlt (ofZ x) (ofZ y) = true.
Proof. intro H. apply Qcltb_true, injZ_lt, H. Qed.

Lemma isFinite_Num (x : number) :
  isFinite x = true -> exists q : Qc, x = Num q.
Proof. destruct x; try discriminate. intros _. eexists. reflexivity. Qed.

Lemma injZ_gap_nonzero (t0 t1 : Z) :
  t0 < t1 -> Qceqb (injZ t1 + - injZ t0) 0 = false.
Proof.
  intro H. apply Qceqb_false. intro Heq.
  assert (Hlt : (0 < injZ t1 + - injZ t0)%Qc).
  { apply (proj1 (Qclt_minus_iff (injZ t0) (injZ t1))).
    apply (proj2 (injZ_lt t0 t1)). exact H. }
  rewrite Heq in Hlt. exact (Qclt_not_eq _ _ Hlt eq_refl).
Qed.

(** The fraction of the way from [t0] to [t1] at which [t0] lies is 0. *)
Lemma fraction_at_start (t0 t1 : Z) :
  t0 < t1 ->
  ((ofZ t0 - ofZ t0) / (ofZ t1 - ofZ t0))%num = Num 0%Qc.
Proof.
  intro H. unfold ofZ. cbn [nsub nadd nneg ndiv].
  rewrite (injZ_gap_nonzero t0 t1 H). f_equal.
  assert (Hne : (injZ t1 + - injZ t0)%Qc <> 0%Qc)
    by (apply Qceqb_false, injZ_gap_nonzero, H).
  field. exact Hne.
Qed.

Lemma lerp_at_start (k0 k1 : AnimationKeyframeLinear) :
  isFinite (lin_value k0) = true -> isFinite (lin_value k1) = true ->
  lerp k0 k1 (Num 0%Qc) = lin_value k0.
Proof.
  intros H0 H1. unfold lerp.
  destruct (isFinite_Num _ H0) as [a ->].
  destruct (isFinite_Num _ H1) as [b ->].
  cbn [nsub nadd nneg nmul]. f_equal. ring.
Qed.

Lemma injZ_0 : injZ 0 = 0%Qc.
Proof. reflexivity. Qed.

Lemma injZ_1 : injZ 1 = 1%Qc.
Proof. reflexivity. Qed.

Lemma injZ_opp (z : Z) : injZ (- z) = (- injZ z)%Qc.
Proof.
  apply Qc_is_canon. unfold injZ, Qcopp, Q2Qc. cbn [this].
  rewrite !Qred_correct. rewrite inject_Z_opp. reflexivity.
Qed.

Lemma injZ_2 : injZ 2 = (1 + 1)%Qc.
Proof. apply Qc_is_canon. reflexivity. Qed.

Lemma injZ_3 : injZ 3 = (1 + 1 + 1)%Qc.
Proof. apply Qc_is_canon. reflexivity. Qed.

(** The Hermite segment between two keyframes with finite values and
    tangents, at fraction 0. *)
Lemma hermiteInterpolate_at_start (k0 k1 : AnimationKeyframeHermite) :
  isFinite (value k0) = true -> isFinite (tangentOut k0) = true ->
  isFinite (value k1) = true -> isFinite (tangentIn k1) = true ->
  hermiteInterpolate k0 k1 (Num 0%Qc) = value k0.
Proof.
  intros Hp0 Hs0 Hp1 Hs1. unfold hermiteInterpolate, cubicEval.
  destruct (isFinite_Num _ Hp0) as [p0 ->].
  destruct (isFinite_Num _ Hs0) as [s0 ->].
  destruct (isFinite_Num _ Hp1) as [p1 ->].
  destruct (isFinite_Num _ Hs1) as [s1 ->].
  unfold ofZ. cbn [nsub nadd nneg nmul].
  change (-2) with (- (2)). change (-3) with (- (3)). change (-1) with (- (1)).
  rewrite !injZ_opp, injZ_3, injZ_2, injZ_1, injZ_0.
  f_equal; ring.
Qed.

(** What the Hermite sampler computes between two consecutive keyframes. *)
Lemma sampleAnimationTrackHermite_bracket
    (frames : list AnimationKeyframeHermite) (i : nat)
    (k0 k1 : AnimationKeyframeHermite) (frame : number) :
  strictlyIncreasing (map time frames) = true ->
  nth_error frames i = Some k0 ->
  nth_error frames (S i) = Some k1 ->
  nge frame (ofZ (time k0)) = true ->
  nlt frame (ofZ (time k1)) = true ->
  sampleAnimationTrackHermite frames frame
  = if neqb (ofZ (time k1) - ofZ (time k0))%num (ofZ 1) then Ok (value k0)
    else Ok (hermiteInterpolate k0 k1
               ((frame - ofZ (time k0))
                / (ofZ (time k1) - ofZ (time k0)))%num).
Proof.
  intros Hs H0 H1 Hge Hlt. unfold sampleAnimationTrackHermite.
  rewrite (length_not_one _ _ _ H1).
  rewrite (findIndex_bracket time frames i k0 k1 frame Hs H0 H1 Hge Hlt).
  destruct (Z.ltb_spec (Z.of_nat (S i)) 0); [lia |].
  replace (Z.of_nat (S i) - 1) with (Z.of_nat i) by lia.
  rewrite !arrayGet_of_nat, H0, H1. reflexivity.
Qed.

(** X11: in a track with increasing keyframe times and finite values (and,
    for a Hermite track, finite tangents), sampling at the time of a keyframe
    returns the value of that keyframe: the curve passes through every
    keyframe. *)
Theorem sample_hits_keyframes (track : AnimationTrack) (i : nat) (t : Z)
    (v : number) :
  strictlyIncreasing (trackTimes track) = true ->
  finiteTrack track = true ->
  nth_error (trackTimes track) i = Some t ->
  nth_error (trackValues track) i = Some v ->
  sampleAnimationTrack track (ofZ t) = Ok v.
Proof.
  intros Hs Hfin Ht Hv.
  destruct track as [frames | frames];
    cbn [trackTimes trackValues sampleAnimationTrack finiteTrack] in *;
    rewrite nth_error_map in Ht, Hv;
    destruct (nth_error frames i) as [k0 |] eqn:H0;
    try discriminate Ht; cbn in Ht, Hv;
    injection Ht as <-; injection Hv as <-;
    rewrite forallb_forall in Hfin;
    pose proof (Hfin k0 (nth_error_In _ _ H0)) as Hf0;
    (destruct (nth_error frames (S i)) as [k1 |] eqn:H1;
     [ pose proof (Hfin k1 (nth_error_In _ _ H1)) as Hf1 | ]).
  - assert (Hlt : lin_time k0 < lin_time k1).
    { apply (strictlyIncreasing_nth (map lin_time frames) i (S i));
        try assumption; try lia.
      - rewrite nth_error_map, H0. reflexivity.
      - rewrite nth_error_map, H1. reflexivity. }
    rewrite (sampleAnimationTrackLinear_bracket frames i k0 k1 _ Hs H0 H1
               (nge_refl_ofZ _) (nlt_ofZ _ _ Hlt)).
    rewrite (fraction_at_start _ _ Hlt), lerp_at_start by assumption.
    reflexivity.
  - apply sampleAnimationTrackLinear_past_last;
      [exact Hs | | apply nge_refl_ofZ].
    apply nth_error_None in H1.
    assert (i < List.length frames)%nat by (apply nth_error_Some; congruence).
    replace (List.length frames - 1)%nat with i by lia. exact H0.
  - assert (Hlt : time k0 < time k1).
    { apply (strictlyIncreasing_nth (map time frames) i (S i));
        try assumption; try lia.
      - rewrite nth_error_map, H0. reflexivity.
      - rewrite nth_error_map, H1. reflexivity. }
    rewrite (sampleAnimationTrackHermite_bracket frames i k0 k1 _ Hs H0 H1
               (nge_refl_ofZ _) (nlt_ofZ _ _ Hlt)).
    destruct (neqb _ _); [reflexivity |].
    rewrite (fraction_at_start _ _ Hlt).
    apply andb_true_iff in Hf0. destruct Hf0 as [Hf0 Hout0].
    apply andb_true_iff in Hf0. destruct Hf0 as [Hv0 _].
    apply andb_true_iff in Hf1. destruct Hf1 as [Hf1 _].
    apply andb_true_iff in Hf1. destruct Hf1 as [Hv1 Hin1].
    rewrite (hermiteInterpolate_at_start k0 k1 Hv0 Hout0 Hv1 Hin1).
    reflexivity.
  - apply sampleAnimationTrackHermite_past_last;
      [exact Hs | | apply nge_refl_ofZ].
    apply nth_error_None in H1.
    assert (i < List.length frames)%nat by (apply nth_error_Some; congruence).
    replace (List.length frames - 1)%nat with i by lia. exact H0.
Qed.

Lemma sample_hits_keyframes_witness :
  sampleAnimationTrack (AnimationTrackHermite hermiteFrames) (ofZ 0)
  = Ok (ofZ 1)
  /\ sampleAnimationTrack (AnimationTrackHermite hermiteFrames) (ofZ 8)
     = Ok (ofZ 2).
Proof.
  split.
  - apply (sample_hits_keyframes (AnimationTrackHermite hermiteFrames) 0 0);
      reflexivity.
  - apply (sample_hits_keyframes (AnimationTrackHermite hermiteFrames) 1 8);
      reflexivity.
Defined.

(** ** Between the keyframes *)

Lemma Qc_fraction_range (x y : Qc) :
  (0 <= x)%Qc -> (x < y)%Qc -> (0 <= x / y)%Qc /\ (x / y < 1)%Qc.
Proof.
  intros Hx Hxy.
  assert (Hy : (0 < this y)%Q).
  { apply (Qle_lt_trans _ (this x)); [exact Hx | exact Hxy]. }
  unfold Qcle, Qclt, Qcdiv, Qcmult, Qcinv, Q2Qc in *. cbn [this] in *.
  rewrite !Qred_correct. split.
  - apply Qle_shift_div_l; [exact Hy |]. rewrite Qmult_0_l. exact Hx.
  - apply Qlt_shift_div_r; [exact Hy |]. rewrite Qmult_1_l. exact Hxy.
Qed.

(** X13: in a linear track with increasing keyframe times, sampling between
    two consecutive keyframes with finite values returns a finite number that
    lies between those two values. *)
Theorem linear_sample_between_neighbours
    (frames : list AnimationKeyframeLinear) (i : nat)
    (k0 k1 : AnimationKeyframeLinear) (frame : number) (v0 v1 : Qc) :
  strictlyIncreasing (map lin_time frames) = true ->
  nth_error frames i = Some k0 ->
  nth_error frames (S i) = Some k1 ->
  nge frame (ofZ (lin_time k0)) = true ->
  nlt frame (ofZ (lin_time k1)) = true ->
  lin_value k0 = Num v0 -> lin_value k1 = Num v1 ->
  exists r : Qc,
    sampleAnimationTrack (AnimationTrackLinear frames) frame = Ok (Num r)
    /\ ((v0 <= r /\ r <= v1) \/ (v1 <= r /\ r <= v0))%Qc.
Proof.
  intros Hs H0 H1 Hge Hlt Hv0 Hv1. cbn [sampleAnimationTrack].
  rewrite (sampleAnimationTrackLinear_bracket frames i k0 k1 frame Hs H0 H1 Hge Hlt).
  destruct (frame_between_finite _ _ _ Hge Hlt) as (f & -> & Hle & Hf).
  unfold lerp, ofZ. rewrite Hv0, Hv1. cbn [nsub nadd nneg ndiv].
  assert (Hgap : (lin_time k0 < lin_time k1)).
  { apply injZ_lt. eapply Qcle_lt_trans; eassumption. }
  rewrite (injZ_gap_nonzero _ _ Hgap). cbn [nmul nadd].
  eexists. split; [reflexivity |].
  destruct (Qc_fraction_range (f + - injZ (lin_time k0))
              (injZ (lin_time k1) + - injZ (lin_time k0))) as [Ht0 Ht1].
  { qc2q. lra. }
  { qc2q. lra. }
  set (t := ((f + - injZ (lin_time k0))
             / (injZ (lin_time k1) + - injZ (lin_time k0)))%Qc) in *.
  clearbody t.
  destruct (Qclt_le_dec v1 v0) as [Hdesc | Hasc].
  - right. qc2q. split; nra.
  - left. qc2q. split; nra.
Qed.

Lemma linear_sample_between_neighbours_witness :
  exists r : Qc,
    sampleAnimationTrack rampTrack (Num (Q2Qc (7 # 2))) = Ok (Num r)
    /\ ((injZ 0 <= r /\ r <= injZ 10) \/ (injZ 10 <= r /\ r <= injZ 0))%Qc.
Proof.
  apply (linear_sample_between_neighbours rampFrames 0
           {| lin_time := 0; lin_value := ofZ 0 |}
           {| lin_time := 10; lin_value := ofZ 10 |});
    reflexivity.
Defined.

(** * Further properties of the frame normalisation *)

Lemma repeatLoop_exit (fuel : nat) (lastFrame : number) :
  forall frame r : number,
    repeatLoop fuel lastFrame frame = Some r -> ngt r lastFrame = false.
Proof.
  induction fuel as [| fuel IH]; intros frame r H; cbn [repeatLoop] in H.
  - discriminate H.
  - destruct (ngt frame lastFrame) eqn:Hgt.
    + exact (IH _ _ H).
    + injection H as <-. exact Hgt.
Qed.

(** X14: in either loop mode and for every input, also NaN and the
    infinities, a frame that [getAnimFrame] returns does not exceed the
    duration, and normalising it again returns it unchanged. *)
Theorem getAnimFrame_result_is_normal (fuel : nat) (anim : AnimationBase)
    (frame r : number) :
  getAnimFrame fuel anim frame = Some r ->
  ngt r (ofZ (duration anim)) = false
  /\ forall fuel' : nat, getAnimFrame (S fuel') anim r = Some r.
Proof.
  intro H.
  assert (Hexit : ngt r (ofZ (duration anim)) = false).
  { unfold getAnimFrame in H. destruct (loopMode anim).
    - destruct (ngt frame (ofZ (duration anim))) eqn:Hgt;
        injection H as <-; [apply ngt_irrefl_ofZ | exact Hgt].
    - exact (repeatLoop_exit _ _ _ _ H). }
  split; [exact Hexit |].
  intro fuel'. unfold getAnimFrame. destruct (loopMode anim).
  - rewrite Hexit. reflexivity.
  - apply repeatLoop_stays. exact Hexit.
Qed.

Lemma getAnimFrame_result_is_normal_witness :
  getAnimFrame 3 repeatTen (ofZ 25) = Some (ofZ 5)
  /\ ngt (ofZ 5) (ofZ (duration repeatTen)) = false
  /\ getAnimFrame 1 repeatTen (ofZ 5) = Some (ofZ 5).
Proof.
  assert (H : getAnimFrame 3 repeatTen (ofZ 25) = Some (ofZ 5)) by reflexivity.
  destruct (getAnimFrame_result_is_normal 3 repeatTen (ofZ 25) (ofZ 5) H)
    as [Hle Hidem].
  split; [exact H |]. split; [exact Hle | exact (Hidem 0%nat)].
Defined.

(** * Further properties of the animators *)

Lemma deref_fails {A : Type} (o : option A) : onlyFails isTypeError (deref o).
Proof. destruct o; [apply onlyFails_Ok | apply onlyFails_Err; reflexivity]. Qed.

Lemma sampleAnimationTrack_fails (track : AnimationTrack) (frame : number) :
  onlyFails isTypeError (sampleAnimationTrack track frame).
Proof.
  destruct track as [frames | frames]; cbn [sampleAnimationTrack];
    [unfold sampleAnimationTrackLinear | unfold sampleAnimationTrackHermite];
    repeat first [ apply deref_fails | fails_step ].
Qed.

Lemma sampleSlot_fails (animEntry : AnimationEntry) (i : Z)
    (animFrame dflt : number) :
  onlyFails isTypeError (sampleSlot animEntry i animFrame dflt).
Proof.
  unfold sampleSlot. destruct (arrayGet (tracks animEntry) i) as [[track |] |].
  - apply sampleAnimationTrack_fails.
  - apply onlyFails_Ok.
  - apply onlyFails_Ok.
Qed.

(** X16: an entry that the constructor of [TextureAnimator] accepts is
    refused by the constructor of [ColorAnimator] with [InvalidEntryType],
    and [calcTexMtx] on it never reaches its final throw: the only error it
    can end with is the [TypeError] of a sampler. *)
Theorem accepted_texture_entry_only_throws_TypeError (cmab : CMAB)
    (animEntry : AnimationEntry) (animator : CMAB * AnimationEntry) :
  newTextureAnimator cmab animEntry = Ok animator ->
  newColorAnimator cmab animEntry = Err InvalidEntryType
  /\ forall (fuel : nat) (timeInFrames : number) (e : error),
       calcTexMtx fuel cmab animEntry timeInFrames = Some (Err e) ->
       e = TypeError.
Proof.
  unfold newTextureAnimator, newColorAnimator. intro Hacc.
  destruct (Z.eqb_spec (animationType animEntry) TRANSLATION) as [Ht | Ht].
  - split; [rewrite Ht; reflexivity |].
    intros fuel t e H. unfold calcTexMtx in H.
    destruct (getAnimFrame fuel cmab t) as [af |]; [| discriminate H].
    injection H as H. rewrite Ht in H. change (TRANSLATION =? TRANSLATION) with true in H.
    revert e H. change (onlyFails isTypeError
      (tx <- sampleSlot animEntry 0 af (ofZ 0) ;;
       ty <- sampleSlot animEntry 1 af (ofZ 0) ;;
       Ok (MtxTranslation (- tx)%num (- ty)%num))).
    repeat first [ apply sampleSlot_fails | fails_step ].
  - destruct (Z.eqb_spec (animationType animEntry) ROTATION) as [Hr | Hr];
      [| discriminate Hacc].
    split; [rewrite Hr; reflexivity |].
    intros fuel t e H. unfold calcTexMtx in H.
    destruct (getAnimFrame fuel cmab t) as [af |]; [| discriminate H].
    injection H as H.
    destruct (Z.eqb_spec (animationType animEntry) TRANSLATION);
      [contradiction |].
    rewrite Hr in H. change (ROTATION =? ROTATION) with true in H.
    revert e H. change (onlyFails isTypeError
      (rad <- sampleSlot animEntry 0 af (ofZ 0) ;; Ok (MtxRotateZ rad))).
    repeat first [ apply sampleSlot_fails | fails_step ].
Qed.

Lemma accepted_texture_entry_only_throws_TypeError_witness :
  newColorAnimator repeatTen rampEntry = Err InvalidEntryType
  /\ calcTexMtx 1 repeatTen rampEntry (ofZ (-1)) = Some (Err TypeError).
Proof.
  destruct (accepted_texture_entry_only_throws_TypeError repeatTen rampEntry
              (repeatTen, rampEntry) eq_refl) as [Hcolor Honly].
  split; [exact Hcolor |].
  destruct (calcTexMtx 1 repeatTen rampEntry (ofZ (-1)))
    as [[m | e] |] eqn:Hcalc.
  - vm_compute in Hcalc. discriminate Hcalc.
  - rewrite (Honly 1%nat (ofZ (-1)) e Hcalc). reflexivity.
  - vm_compute in Hcalc. discriminate Hcalc.
Defined.

(** ** Where the animators return *)

Lemma startsBy_defined (track : AnimationTrack) (frame : number) :
  startsBy track frame = true ->
  exists v : number, sampleAnimationTrack track frame = Ok v.
Proof.
  unfold startsBy. intro H.
  destruct (trackTimes track) as [| t0 rest] eqn:Ht; [discriminate H |].
  apply (sampleAnimationTrack_defined track frame t0).
  - rewrite Ht. reflexivity.
  - apply negb_true_iff. exact H.
Qed.

Lemma sampleSlot_defined (animEntry : AnimationEntry) (i : nat)
    (animFrame dflt : number) :
  (forall track, trackAt (tracks animEntry) i = Some track ->
                 startsBy track animFrame = true) ->
  exists v : number,
    sampleSlot animEntry (Z.of_nat i) animFrame dflt = Ok v.
Proof.
  intro Hstart. unfold sampleSlot. rewrite arrayGet_of_nat.
  unfold trackAt in Hstart.
  destruct (nth_error (tracks animEntry) i) as [[track |] |].
  - apply startsBy_defined. apply Hstart. reflexivity.
  - eexists. reflexivity.
  - eexists. reflexivity.
Qed.

Lemma sampleSlot_without_track (animEntry : AnimationEntry) (i : nat)
    (animFrame dflt : number) :
  trackAt (tracks animEntry) i = None ->
  sampleSlot animEntry (Z.of_nat i) animFrame dflt = Ok dflt.
Proof.
  unfold trackAt, sampleSlot. rewrite arrayGet_of_nat.
  destruct (nth_error (tracks animEntry) i) as [[track |] |];
    [discriminate | reflexivity | reflexivity].
Qed.

(** X17: when the frame normalisation returns a frame that is not before the
    first keyframe of any track the entry holds, and no track of the entry
    is empty, [calcMaterialColor] returns a colour; a slot without a track
    contributes the default 1. *)
Theorem calcMaterialColor_returns (fuel : nat) (cmab : CMAB)
    (animEntry : AnimationEntry) (timeInFrames animFrame : number) :
  getAnimFrame fuel cmab timeInFrames = Some animFrame ->
  (forall (i : nat) (track : AnimationTrack),
     trackAt (tracks animEntry) i = Some track ->
     startsBy track animFrame = true) ->
  exists c : Color,
    calcMaterialColor fuel cmab animEntry timeInFrames = Some (Ok c)
    /\ (trackAt (tracks animEntry) 0 = None -> red c = ofZ 1)
    /\ (trackAt (tracks animEntry) 1 = None -> green c = ofZ 1)
    /\ (trackAt (tracks animEntry) 2 = None -> blue c = ofZ 1)
    /\ (trackAt (tracks animEntry) 3 = None -> alpha c = ofZ 1).
Proof.
  intros Hframe Hstart. unfold calcMaterialColor. rewrite Hframe.
  destruct (sampleSlot_defined animEntry 0 animFrame (ofZ 1) (Hstart 0%nat))
    as [cr Hr].
  destruct (sampleSlot_defined animEntry 1 animFrame (ofZ 1) (Hstart 1%nat))
    as [cg Hg].
  destruct (sampleSlot_defined animEntry 2 animFrame (ofZ 1) (Hstart 2%nat))
    as [cb Hb].
  destruct (sampleSlot_defined animEntry 3 animFrame (ofZ 1) (Hstart 3%nat))
    as [ca Ha].
  assert (Hdflt : forall (i : nat) (v : number),
             sampleSlot animEntry (Z.of_nat i) animFrame (ofZ 1) = Ok v ->
             trackAt (tracks animEntry) i = None -> v = ofZ 1).
  { intros i v Hv Hnone.
    rewrite (sampleSlot_without_track animEntry i animFrame (ofZ 1) Hnone) in Hv.
    congruence. }
  pose proof (Hdflt 0%nat cr Hr) as Hdr. pose proof (Hdflt 1%nat cg Hg) as Hdg.
  pose proof (Hdflt 2%nat cb Hb) as Hdb. pose proof (Hdflt 3%nat ca Ha) as Hda.
  cbn [Z.of_nat Pos.of_succ_nat Pos.succ] in Hr, Hg, Hb, Ha.
  rewrite Hr, Hg, Hb, Ha. cbn [bind].
  eexists. split; [reflexivity |]. cbn [red green blue alpha].
  repeat split; assumption.
Qed.

Lemma calcMaterialColor_returns_witness :
  exists c : Color,
    calcMaterialColor 3 repeatTen colorEntry (ofZ 25) = Some (Ok c)
    /\ green c = ofZ 1 /\ blue c = ofZ 1.
Proof.
  destruct (calcMaterialColor_returns 3 repeatTen colorEntry (ofZ 25) (ofZ 5))
    as (c & Hc & _ & Hg & Hb & _).
  - reflexivity.
  - intros [| [| [| [| i]]]] track Ht; try discriminate Ht.
    + injection Ht as <-. reflexivity.
    + injection Ht as <-. reflexivity.
    + destruct i; discriminate Ht.
  - exists c. split; [exact Hc |].
    split; [apply Hg; reflexivity | apply Hb; reflexivity].
Defined.

(** X18: for an entry that the constructor of [TextureAnimator] accepts,
    when the frame normalisation returns a frame that is not before the first
    keyframe of any track the entry holds, and no track of the entry is
    empty, [calcTexMtx] returns a matrix. *)
Theorem calcTexMtx_returns (fuel : nat) (cmab : CMAB)
    (animEntry : AnimationEntry) (animator : CMAB * AnimationEntry)
    (timeInFrames animFrame : number) :
  newTextureAnimator cmab animEntry = Ok animator ->
  getAnimFrame fuel cmab timeInFrames = Some animFrame ->
  (forall (i : nat) (track : AnimationTrack),
     trackAt (tracks animEntry) i = Some track ->
     startsBy track animFrame = true) ->
  exists m : TexMtx,
    calcTexMtx fuel cmab animEntry timeInFrames = Some (Ok m).
Proof.
  unfold newTextureAnimator. intros Hacc Hframe Hstart.
  unfold calcTexMtx. rewrite Hframe.
  destruct (sampleSlot_defined animEntry 0 animFrame (ofZ 0) (Hstart 0%nat))
    as [tx Hx].
  destruct (sampleSlot_defined animEntry 1 animFrame (ofZ 0) (Hstart 1%nat))
    as [ty Hy].
  cbn [Z.of_nat Pos.of_succ_nat Pos.succ] in Hx, Hy.
  destruct (animationType animEntry =? TRANSLATION).
  - rewrite Hx, Hy. eexists. reflexivity.
  - destruct (animationType animEntry =? ROTATION); [| discriminate Hacc].
    rewrite Hx. eexists. reflexivity.
Qed.

Lemma calcTexMtx_returns_witness :
  exists m : TexMtx,
    calcTexMtx 3 repeatTen rampEntry (ofZ 25) = Some (Ok m).
Proof.
  apply (calcTexMtx_returns 3 repeatTen rampEntry (repeatTen, rampEntry)
           (ofZ 25) (ofZ 5)).
  - reflexivity.
  - reflexivity.
  - intros [| i] track Ht.
    + injection Ht as <-. reflexivity.
    + destruct i; discriminate Ht.
Defined.

(** * What a parsed container holds *)

Lemma parseMmad_track_parsed (version : Version) (buffer : ArrayBufferSlice)
    (entry : AnimationEntry) (i : nat) (track : AnimationTrack) :
  parseMmad version buffer = Ok entry ->
  trackAt (tracks entry) i = Some track ->
  exists offs : Z,
    parseTrack version (slice buffer offs) = Ok (Some track).
Proof.
  unfold parseMmad. intros H Ht. peel H. injection H as <-.
  cbn [tracks] in Ht.
  match goal with
  | Hs : parseTrackSlots _ _ ?n _ _ _ = Ok _ |- _ =>
      destruct (parseTrackSlots_Ok _ _ _ _ _ _ _ Hs) as (_ & Hout & Hin);
      destruct (Nat.lt_ge_cases i n) as [Hi | Hi]
  end.
  - destruct (Hin i) as (offs & _ & [(_ & Hsame) | (_ & Hparsed)]); [lia | |].
    + rewrite Hsame in Ht. destruct i; discriminate Ht.
    + exists offs. rewrite Hparsed, Ht. reflexivity.
  - rewrite Hout in Ht by lia. destruct i; discriminate Ht.
Qed.

Lemma parseTrack_times_in_range (version : Version)
    (buffer : ArrayBufferSlice) (track : AnimationTrack) :
  parseTrack version buffer = Ok (Some track) ->
  (1 <= List.length (trackTimes track))%nat
  /\ Forall (fun t => 0 <= t < 2 ^ 32) (trackTimes track).
Proof.
  intro H.
  destruct (parseTrack_Ok_inv _ _ _ H)
    as (type & n & _ & _ & _ & Hn & [(_ & fs & -> & Hf) | (_ & fs & -> & Hf)]);
    cbn [trackTimes]; rewrite length_map.
  - destruct (readKeyframesLinear_layout _ _ _ _ Hf) as [Hl Hlay].
    split; [lia |]. apply Forall_forall. intros t Hin.
    apply in_map_iff in Hin. destruct Hin as (k & <- & Hk).
    apply In_nth_error in Hk. destruct Hk as [i Hi].
    destruct (Hlay i k Hi) as [Ht _]. apply getUint32_Ok in Ht. tauto.
  - destruct (readKeyframesHermite_layout _ _ _ _ Hf) as [Hl Hlay].
    split; [lia |]. apply Forall_forall. intros t Hin.
    apply in_map_iff in Hin. destruct Hin as (k & <- & Hk).
    apply In_nth_error in Hk. destruct Hk as [i Hi].
    destruct (Hlay i k Hi) as [Ht _]. apply getUint32_Ok in Ht. tauto.
Qed.

(** X19: in a container that [parse] returns, the duration is an unsigned
    32-bit integer, and every track held by a slot of an entry has at least
    one keyframe and only keyframe times that are unsigned 32-bit integers:
    a parsed container never holds an empty track or a negative time. *)
Theorem parsed_container_invariant (version : Version)
    (buffer : ArrayBufferSlice) (cmab : CMAB) :
  parse version buffer = Ok cmab ->
  0 <= duration cmab < 2 ^ 32
  /\ forall (entry : AnimationEntry) (i : nat) (track : AnimationTrack),
       In entry (animEntries cmab) ->
       trackAt (tracks entry) i = Some track ->
       (1 <= List.length (trackTimes track))%nat
       /\ Forall (fun t => 0 <= t < 2 ^ 32) (trackTimes track).
Proof.
  intro Hparse. split.
  - destruct (parse_Ok_populated _ _ _ Hparse) as (n & _ & _ & Hd & _).
    apply getUint32_Ok in Hd. tauto.
  - intros entry i track Hin Ht.
    apply In_nth_error in Hin. destruct Hin as [j Hj].
    assert (Hentry : exists buffer', parseMmad version buffer' = Ok entry).
    { unfold parse in Hparse. peel Hparse. injection Hparse as <-.
      cbn [animEntries] in Hj.
      match goal with
      | He : parseEntries _ _ _ _ _ = Ok _ |- _ =>
          destruct (parseEntries_nth _ _ _ _ _ _ He j entry Hj)
            as (offs & _ & Hm)
      end.
      eexists. exact Hm. }
    destruct Hentry as [buffer' Hentry].
    destruct (parseMmad_track_parsed _ _ _ _ _ Hentry Ht) as [offs Htrack].
    exact (parseTrack_times_in_range _ _ _ Htrack).
Qed.

Lemma parsed_container_invariant_witness :
  exists cmab : CMAB,
    parse Ocarina lateStartBuffer = Ok cmab
    /\ 0 <= duration cmab < 2 ^ 32.
Proof.
  assert (Hp : { cmab | parse Ocarina lateStartBuffer = Ok cmab })
    by (eexists; vm_compute; reflexivity).
  destruct Hp as [cmab Hp]. exists cmab. split; [exact Hp |].
  exact (proj1 (parsed_container_invariant Ocarina lateStartBuffer cmab Hp)).
Defined.

(** * The model cache of the Fez scenes *)

Lemma mapGet_mapSet_same (m : PromiseMap) (key : string) (v : Promise) :
  mapGet (mapSet m key v) key = Some v.
Proof.
  induction m as [| [k v0] rest IH]; cbn [mapSet mapGet].
  - rewrite String.eqb_refl. reflexivity.
  - destruct (String.eqb k key) eqn:Hk; cbn [mapGet]; rewrite Hk.
    + reflexivity.
    + exact IH.
Qed.

Lemma mapGet_mapSet_other (m : PromiseMap) (key key' : string) (v : Promise) :
  key <> key' -> mapGet (mapSet m key v) key' = mapGet m key'.
Proof.
  intro Hne. induction m as [| [k v0] rest IH]; cbn [mapSet mapGet].
  - destruct (String.eqb_spec key key'); [contradiction | reflexivity].
  - destruct (String.eqb_spec k key) as [-> | Hk]; cbn [mapGet].
    + destruct (String.eqb_spec key key'); [contradiction | reflexivity].
    + destruct (String.eqb k key'); [reflexivity | exact IH].
Qed.

Lemma mapGet_mapSet_kept (m : PromiseMap) (key key' : string) (v p : Promise) :
  mapGet m key = None -> mapGet m key' = Some p ->
  mapGet (mapSet m key v) key' = Some p.
Proof.
  intros Hnone Hsome. rewrite mapGet_mapSet_other; [exact Hsome |].
  intros ->. congruence.
Qed.

Lemma mapHas_false (m : PromiseMap) (key : string) :
  mapHas m key = false -> mapGet m key = None.
Proof. unfold mapHas. destruct (mapGet m key); [discriminate | reflexivity]. Qed.

Lemma mapHas_true (m : PromiseMap) (key : string) :
  mapHas m key = true -> exists p, mapGet m key = Some p.
Proof.
  unfold mapHas. destruct (mapGet m key) as [p |]; [| discriminate].
  intros _. exists p. reflexivity.
Qed.

(** Unfolds a call down to the maps. *)
Ltac unfold_call :=
  unfold call, fetchTrileset, fetchArtObject, fetchBackgroundPlane,
    fetchTrilesetInternal, fetchArtObjectInternal,
    fetchBackgroundPlaneInternal, startFetch in *.

(** A call whose asset is in its map answers from the map and leaves the
    cache as it is. *)
Lemma call_hit (c : ModelCache) (k : CacheCall) (p : Promise) :
  mapGet (cacheFor k c) (assetPath k) = Some p ->
  call c k = (Some p, c).
Proof.
  intro Hget. destruct k as [path | path | path b];
    cbn [cacheFor assetPath] in Hget; unfold_call; unfold mapHas;
    rewrite Hget; cbn [negb]; rewrite Hget; reflexivity.
Qed.

(** After a call its asset is in its map, under the promise returned. *)
Lemma call_stores (c : ModelCache) (k : CacheCall) :
  exists p : Promise,
    fst (call c k) = Some p
    /\ mapGet (cacheFor k (snd (call c k))) (assetPath k) = Some p.
Proof.
  destruct (mapGet (cacheFor k c) (assetPath k)) as [p |] eqn:Hget.
  - exists p. rewrite (call_hit c k p Hget). split; [reflexivity | exact Hget].
  - exists (created c).
    destruct k as [path | path | path b]; cbn [cacheFor assetPath] in *;
      unfold_call; unfold mapHas; rewrite Hget; cbn [negb];
      try destruct b; cbn [fst snd cacheFor trilesetPromiseCache
                             artObjectPromiseCache backgroundPlanePromiseCache];
      rewrite mapGet_mapSet_same; split; reflexivity.
Qed.

(** No call removes or replaces what a map holds. *)
Lemma call_keeps (c : ModelCache) (k k' : CacheCall) (p : Promise) :
  mapGet (cacheFor k c) (assetPath k) = Some p ->
  mapGet (cacheFor k (snd (call c k'))) (assetPath k) = Some p.
Proof.
  intro Hget.
  destruct (mapGet (cacheFor k' c) (assetPath k')) as [p' |] eqn:Hget'.
  - rewrite (call_hit c k' p' Hget'). exact Hget.
  - destruct k as [path | path | path b];
      destruct k' as [path' | path' | path' b'];
      cbn [cacheFor assetPath] in *; unfold_call; unfold mapHas;
      rewrite Hget'; cbn [negb]; try destruct b';
      cbn [snd cacheFor trilesetPromiseCache artObjectPromiseCache
             backgroundPlanePromiseCache];
      first [ exact Hget | apply mapGet_mapSet_kept; assumption ].
Qed.

Lemma calls_keep (ks : list CacheCall) :
  forall (c : ModelCache) (k : CacheCall) (p : Promise),
    mapGet (cacheFor k c) (assetPath k) = Some p ->
    mapGet (cacheFor k (calls c ks)) (assetPath k) = Some p.
Proof.
  induction ks as [| k' rest IH]; intros c k p Hget; cbn [calls].
  - exact Hget.
  - apply IH. apply call_keeps. exact Hget.
Qed.

Lemma sameAsset_cache (k k' : CacheCall) (c : ModelCache) :
  sameAsset k k' = true ->
  cacheFor k' c = cacheFor k c /\ assetPath k' = assetPath k.
Proof.
  destruct k, k'; cbn [sameAsset cacheFor assetPath]; try discriminate;
    intro H; apply String.eqb_eq in H; subst; split; reflexivity.
Qed.

(** X21: a call of [fetchTrileset], [fetchArtObject] or
    [fetchBackgroundPlane] never returns [undefined]; and after it, whatever
    other calls are made in between, a further call for the same asset (the
    same method and path; for a background plane also with the other value
    of [isAnimated]) returns the same promise and leaves the cache as it is,
    so that nothing is requested a second time. *)
Theorem fetch_is_memoised (c c1 : ModelCache) (k k' : CacheCall)
    (r : option Promise) (ks : list CacheCall) :
  call c k = (r, c1) ->
  sameAsset k k' = true ->
  (exists p : Promise, r = Some p)
  /\ call (calls c1 ks) k' = (r, calls c1 ks).
Proof.
  intros Hcall Hsame.
  destruct (call_stores c k) as (p & Hfst & Hget).
  rewrite Hcall in Hfst, Hget. cbn [fst snd] in Hfst, Hget. subst r.
  split; [exists p; reflexivity |].
  apply call_hit.
  destruct (sameAsset_cache k k' (calls c1 ks) Hsame) as [-> ->].
  apply calls_keep. exact Hget.
Qed.

Lemma fetch_is_memoised_witness :
  exists (p : Promise) (c1 : ModelCache),
    call newModelCache (CallBackgroundPlane "sky" false) = (Some p, c1)
    /\ call (calls c1 [CallTrileset "sky"; CallArtObject "sky"])
            (CallBackgroundPlane "sky" true)
       = (Some p, calls c1 [CallTrileset "sky"; CallArtObject "sky"])
    /\ requestedPaths c1 = ["Fez/background planes/sky.png"%string].
Proof.
  assert (Hc : { rc | call newModelCache (CallBackgroundPlane "sky" false) = rc })
    by (eexists; reflexivity).
  destruct Hc as [[r c1] Hc].
  destruct (fetch_is_memoised newModelCache c1 (CallBackgroundPlane "sky" false)
              (CallBackgroundPlane "sky" true) r
              [CallTrileset "sky"; CallArtObject "sky"] Hc eq_refl)
    as [[p ->] Hagain].
  exists p, c1. split; [exact Hc |]. split; [exact Hagain |].
  vm_compute in Hc. injection Hc as _ <-. reflexivity.
Defined.

Lemma mapSet_new_value (m : PromiseMap) (key : string) (v : Promise) :
  mapGet m key = None -> map snd (mapSet m key v) = map snd m ++ [v].
Proof.
  induction m as [| [k v0] rest IH]; cbn [mapGet mapSet map snd app]; intro H.
  - reflexivity.
  - destruct (String.eqb k key); [discriminate H |].
    cbn [map snd]. rewrite (IH H). reflexivity.
Qed.

Lemma mapGet_In (m : PromiseMap) (key : string) (p : Promise) :
  mapGet m key = Some p -> In p (map snd m).
Proof.
  induction m as [| [k v0] rest IH]; cbn [mapGet map snd]; intro H.
  - discriminate H.
  - destruct (String.eqb k key).
    + injection H as ->. left. reflexivity.
    + right. exact (IH H).
Qed.

Lemma mapGet_unique (m : PromiseMap) (key1 key2 : string) (p : Promise) :
  NoDup (map snd m) ->
  mapGet m key1 = Some p -> mapGet m key2 = Some p -> key1 = key2.
Proof.
  induction m as [| [k v0] rest IH]; cbn [mapGet map snd]; intros Hnd H1 H2.
  - discriminate H1.
  - apply NoDup_cons_iff in Hnd. destruct Hnd as [Hnotin Hnd].
    destruct (String.eqb_spec k key1) as [E1 | Hk1];
      destruct (String.eqb_spec k key2) as [E2 | Hk2].
    + congruence.
    + injection H1 as ->. exfalso. apply Hnotin. exact (mapGet_In _ _ _ H2).
    + injection H2 as ->. exfalso. apply Hnotin. exact (mapGet_In _ _ _ H1).
    + exact (IH Hnd H1 H2).
Qed.

Lemma NoDup_app_disjoint {A : Type} (l1 l2 : list A) (a : A) :
  NoDup (l1 ++ l2) -> In a l1 -> In a l2 -> False.
Proof.
  induction l1 as [| x l1 IH]; cbn [app]; intros Hnd H1 H2.
  - destruct H1.
  - apply NoDup_cons_iff in Hnd. destruct Hnd as [Hnotin Hnd].
    destruct H1 as [-> | H1].
    + apply Hnotin. apply in_or_app. right. exact H2.
    + exact (IH Hnd H1 H2).
Qed.

(** A call that misses adds one promise, the one it creates, to those the
    cache holds. *)
Lemma call_miss_stored (c : ModelCache) (k : CacheCall) :
  mapGet (cacheFor k c) (assetPath k) = None ->
  Permutation (storedPromises (snd (call c k))) (created c :: storedPromises c)
  /\ created (snd (call c k)) = S (created c)
  /\ (List.length (requestedPaths (snd (call c k)))
      <= List.length (requestedPaths c) + 2)%nat.
Proof.
  intro Hget.
  destruct k as [path | path | path b]; cbn [cacheFor assetPath] in Hget;
    unfold_call; unfold mapHas; rewrite Hget; cbn [negb];
    try destruct b;
    cbn [snd]; unfold storedPromises;
    cbn [trilesetPromiseCache artObjectPromiseCache
           backgroundPlanePromiseCache requestedPaths created];
    rewrite (mapSet_new_value _ _ _ Hget), ?length_app; cbn [List.length];
    (split; [| split; [reflexivity | lia]]).
  - rewrite <- app_assoc. cbn [app]. symmetry. apply Permutation_middle.
  - rewrite <- app_assoc. cbn [app].
    rewrite app_assoc. symmetry.
    rewrite (app_assoc (map snd (trilesetPromiseCache c))).
    apply Permutation_middle.
  - rewrite !app_assoc. symmetry. apply Permutation_cons_append.
  - rewrite !app_assoc. symmetry. apply Permutation_cons_append.
Qed.

Lemma call_invariant (c : ModelCache) (k : CacheCall) :
  cacheInvariant c -> cacheInvariant (snd (call c k)).
Proof.
  intros (Hnd & Hlt & Hlen & Hreq).
  destruct (mapGet (cacheFor k c) (assetPath k)) as [p |] eqn:Hget.
  - rewrite (call_hit c k p Hget). repeat split; assumption.
  - destruct (call_miss_stored c k Hget) as (Hperm & Hcr & Hrq).
    unfold cacheInvariant. rewrite Hcr. repeat split.
    + apply (Permutation_NoDup (Permutation_sym Hperm)).
      constructor; [| exact Hnd].
      intro Hin. apply Hlt in Hin. lia.
    + intros p Hin. apply (Permutation_in _ Hperm) in Hin.
      destruct Hin as [<- | Hin]; [lia |]. apply Hlt in Hin. lia.
    + rewrite (Permutation_length Hperm). cbn [List.length]. lia.
    + lia.
Qed.

Lemma calls_invariant (ks : list CacheCall) :
  forall c : ModelCache,
    cacheInvariant c ->
    cacheInvariant (calls c ks)
    /\ (created (calls c ks) <= created c + List.length ks)%nat.
Proof.
  induction ks as [| k rest IH]; intros c Hinv; cbn [calls List.length].
  - split; [exact Hinv | lia].
  - destruct (IH _ (call_invariant c k Hinv)) as [Hinv' Hle].
    split; [exact Hinv' |].
    destruct (mapGet (cacheFor k c) (assetPath k)) as [p |] eqn:Hget.
    + rewrite (call_hit c k p Hget) in *. cbn [snd] in *. lia.
    + destruct (call_miss_stored c k Hget) as (_ & Hcr & _). lia.
Qed.

Lemma newModelCache_invariant : cacheInvariant newModelCache.
Proof.
  unfold cacheInvariant, storedPromises. cbn. repeat split.
  - constructor.
  - intros p [].
  - lia.
Qed.

(** X22: in a cache built from a new one by any sequence of calls of its
    three public methods, no promise is stored under two assets, the number
    of promises created by the internal fetches is the number of assets
    stored, at most the number of calls made, and at most two data paths were
    requested for each of them. *)
Theorem cache_fetches_each_asset_once (ks : list CacheCall) :
  NoDup (storedPromises (calls newModelCache ks))
  /\ List.length (storedPromises (calls newModelCache ks))
     = created (calls newModelCache ks)
  /\ (created (calls newModelCache ks) <= List.length ks)%nat
  /\ (List.length (requestedPaths (calls newModelCache ks))
      <= 2 * created (calls newModelCache ks))%nat.
Proof.
  destruct (calls_invariant ks newModelCache newModelCache_invariant)
    as [(Hnd & _ & Hlen & Hreq) Hle].
  cbn [created newModelCache] in Hle.
  repeat split; assumption.
Qed.

Lemma stored_under_one_asset (c : ModelCache) (k1 k2 : CacheCall)
    (p : Promise) :
  NoDup (storedPromises c) ->
  mapGet (cacheFor k1 c) (assetPath k1) = Some p ->
  mapGet (cacheFor k2 c) (assetPath k2) = Some p ->
  sameAsset k1 k2 = true.
Proof.
  unfold storedPromises. intros Hnd H1 H2.
  pose proof (NoDup_app_remove_r _ _ Hnd) as Hnd1.
  pose proof (NoDup_app_remove_l _ _ Hnd) as Hnd23.
  pose proof (NoDup_app_remove_r _ _ Hnd23) as Hnd2.
  pose proof (NoDup_app_remove_l _ _ Hnd23) as Hnd3.
  destruct k1 as [p1 | p1 | p1 b1]; destruct k2 as [p2 | p2 | p2 b2];
    cbn [cacheFor assetPath sameAsset] in *.
  - apply String.eqb_eq. exact (mapGet_unique _ _ _ _ Hnd1 H1 H2).
  - exfalso. apply mapGet_In in H1. apply mapGet_In in H2.
    apply (NoDup_app_disjoint _ _ p Hnd H1). apply in_or_app. left. exact H2.
  - exfalso. apply mapGet_In in H1. apply mapGet_In in H2.
    apply (NoDup_app_disjoint _ _ p Hnd H1). apply in_or_app. right. exact H2.
  - exfalso. apply mapGet_In in H1. apply mapGet_In in H2.
    apply (NoDup_app_disjoint _ _ p Hnd H2). apply in_or_app. left. exact H1.
  - apply String.eqb_eq. exact (mapGet_unique _ _ _ _ Hnd2 H1 H2).
  - exfalso. apply mapGet_In in H1. apply mapGet_In in H2.
    exact (NoDup_app_disjoint _ _ p Hnd23 H1 H2).
  - exfalso. apply mapGet_In in H1. apply mapGet_In in H2.
    apply (NoDup_app_disjoint _ _ p Hnd H2). apply in_or_app. right. exact H1.
  - exfalso. apply mapGet_In in H1. apply mapGet_In in H2.
    exact (NoDup_app_disjoint _ _ p Hnd23 H2 H1).
  - apply String.eqb_eq. exact (mapGet_unique _ _ _ _ Hnd3 H1 H2).
Qed.

(** X23: in a cache built from a new one by any sequence of calls, two calls
    that return the same promise ask for the same asset: different assets,
    also a trile set and an art object of the same name, get different
    promises. *)
Theorem same_promise_same_asset (ks : list CacheCall) (k1 k2 : CacheCall)
    (p : Promise) (c1 c2 : ModelCache) :
  call (calls newModelCache ks) k1 = (Some p, c1) ->
  call c1 k2 = (Some p, c2) ->
  sameAsset k1 k2 = true.
Proof.
  intros H1 H2.
  destruct (calls_invariant ks newModelCache newModelCache_invariant)
    as [Hinv _].
  pose proof (call_invariant _ k1 Hinv) as Hinv1.
  rewrite H1 in Hinv1. cbn [snd] in Hinv1.
  pose proof (call_invariant _ k2 Hinv1) as Hinv2.
  rewrite H2 in Hinv2. cbn [snd] in Hinv2.
  destruct (call_stores (calls newModelCache ks) k1) as (q1 & Hf1 & Hg1).
  rewrite H1 in Hf1, Hg1. cbn [fst snd] in Hf1, Hg1. injection Hf1 as <-.
  destruct (call_stores c1 k2) as (q2 & Hf2 & Hg2).
  rewrite H2 in Hf2, Hg2. cbn [fst snd] in Hf2, Hg2. injection Hf2 as <-.
  pose proof (call_keeps c1 k1 k2 p Hg1) as Hk1. rewrite H2 in Hk1.
  cbn [snd] in Hk1.
  exact (stored_under_one_asset c2 k1 k2 p (proj1 Hinv2) Hk1 Hg2).
Qed.

Lemma same_promise_same_asset_witness :
  exists (p : Promise) (c1 c2 : ModelCache),
    call (calls newModelCache [CallArtObject "owl"]) (CallTrileset "owl")
    = (Some p, c1)
    /\ call c1 (CallTrileset "owl") = (Some p, c2)
    /\ sameAsset (CallTrileset "owl") (CallTrileset "owl") = true.
Proof.
  exists 1%nat.
  eexists. eexists.
  assert (H1 : call (calls newModelCache [CallArtObject "owl"])
                 (CallTrileset "owl")
               = (Some 1%nat,
                  snd (call (calls newModelCache [CallArtObject "owl"])
                         (CallTrileset "owl"))))
    by reflexivity.
  assert (H2 : call (snd (call (calls newModelCache [CallArtObject "owl"])
                            (CallTrileset "owl")))
                 (CallTrileset "owl")
               = (Some 1%nat,
                  snd (call (calls newModelCache [CallArtObject "owl"])
                         (CallTrileset "owl"))))
    by reflexivity.
  split; [exact H1 |]. split; [exact H2 |].
  exact (same_promise_same_asset [CallArtObject "owl"] (CallTrileset "owl")
           (CallTrileset "owl") 1%nat _ _ H1 H2).
Defined.
